(** * Cross-chain bridge event listener (script.py): model and properties

    The relay pipeline of [script.py] is embedded as executable Rocq
    definitions: the deduplication ledger ([StateDB]), the relay
    dispatcher ([RelayerService]), the per-event protocol
    ([EventProcessor]) and the polling loop ([EventListener]).

    Python integers are unbounded, hence [Z].  Everything the program
    obtains from its environment (the state file, the chain client, the
    HTTP endpoint, the clock) is an explicit input of the function that
    asks for it; every observable action (log record, sleep, log query,
    HTTP POST) is appended to a trace. *)

From Stdlib Require Import ZArith List String Ascii Lia Bool DecimalString.
From Stdlib Require Import PrimFloat.
From Stdlib Require DecimalPos DecimalZ.
From Stdlib Require Import Sorted.
Import ListNotations.
Set Warnings "-register-all".
Local Open Scope string_scope.
Local Open Scope Z_scope.

(** ** Python values *)

(** The values that [json.load] can produce and that the program stores
    in its dictionaries.  A dict is an association list in insertion
    order with unique keys, as Python's [dict]. *)
Inductive pyval : Type :=
| PNone
| PBool (b : bool)
| PInt (z : Z)
| PFloat (f : float)
| PStr (s : string)
| PList (l : list pyval)
| PDict (d : list (string * pyval)).

Inductive exn : Type :=
| TypeError          (* operation not supported by the operand's type *)
| OSError            (* an OSError other than the handled subclass *)
| ChainClientError.  (* any Exception raised by the web3 filter calls *)

Inductive result (A : Type) : Type :=
| Ok (a : A)
| Raise (e : exn).
Arguments Ok {A} a.
Arguments Raise {A} e.

(** [k in d] for a dict. *)
Fixpoint dict_contains (k : string) (d : list (string * pyval)) : bool :=
  match d with
  | [] => false
  | (k', _) :: d' => if String.eqb k k' then true else dict_contains k d'
  end.

(** [d[k] = v]: overwrite in place when the key exists, append otherwise. *)
Fixpoint dict_setitem (k : string) (v : pyval) (d : list (string * pyval))
  : list (string * pyval) :=
  match d with
  | [] => [(k, v)]
  | (k', v') :: d' =>
      if String.eqb k k' then (k', v) :: d' else (k', v') :: dict_setitem k v d'
  end.

(** [x == v] for a str [x] and an arbitrary value [v]. *)
Definition str_eq_val (x : string) (v : pyval) : bool :=
  match v with
  | PStr s => String.eqb x s
  | _ => false
  end.

Fixpoint is_prefix (p s : string) : bool :=
  match p, s with
  | EmptyString, _ => true
  | String a p', String b s' => if Ascii.eqb a b then is_prefix p' s' else false
  | String _ _, EmptyString => false
  end.

(** [x in s] for two strings: substring test. *)
Fixpoint is_substring (x s : string) : bool :=
  if is_prefix x s then true
  else match s with
       | EmptyString => false
       | String _ s' => is_substring x s'
       end.

(** [x in container] for a str [x]. *)
Definition py_contains (x : string) (container : pyval) : result bool :=
  match container with
  | PDict d => Ok (dict_contains x d)
  | PList l => Ok (existsb (str_eq_val x) l)
  | PStr s => Ok (is_substring x s)
  | PNone | PBool _ | PInt _ | PFloat _ => Raise TypeError
  end.

(** [container[k] = v] for a str key [k]. *)
Definition py_setitem (k : string) (v : pyval) (container : pyval) : result pyval :=
  match container with
  | PDict d => Ok (PDict (dict_setitem k v d))
  | _ => Raise TypeError
  end.

(** [len(v)]. *)
Definition py_len (v : pyval) : result Z :=
  match v with
  | PDict d => Ok (Z.of_nat (List.length d))
  | PList l => Ok (Z.of_nat (List.length l))
  | PStr s => Ok (Z.of_nat (String.length s))
  | PNone | PBool _ | PInt _ | PFloat _ => Raise TypeError
  end.

Definition is_dict (v : pyval) : Prop :=
  match v with PDict _ => True | _ => False end.

(** [str(n)] for an int. *)
Definition str_of_int (n : Z) : string := NilZero.string_of_int (Z.to_int n).

Definition hex_digit (n : N) : ascii :=
  match n with
  | 0 => "0" | 1 => "1" | 2 => "2" | 3 => "3" | 4 => "4" | 5 => "5"
  | 6 => "6" | 7 => "7" | 8 => "8" | 9 => "9" | 10 => "a" | 11 => "b"
  | 12 => "c" | 13 => "d" | 14 => "e" | _ => "f"
  end%N%char.

Fixpoint hex_of_bytes (bs : list Byte.byte) : string :=
  match bs with
  | [] => EmptyString
  | b :: bs' =>
      let n := Byte.to_N b in
      String (hex_digit (N.div n 16)) (String (hex_digit (N.modulo n 16)) (hex_of_bytes bs'))
  end.

(** [HexBytes.hex()] as shipped with web3 6.x (hexbytes < 1.0): the
    lower-case digits behind a [0x] prefix. *)
Definition HexBytes_hex (bs : list Byte.byte) : string := "0x" ++ hex_of_bytes bs.

(** ** The environment *)

(** What is found at [state_file_path] when the file is opened. *)
Inductive file_state : Type :=
| FileAbsent                 (* open raises FileNotFoundError *)
| FileUnreadable             (* open or read raises another OSError *)
| FileNotJSON                (* readable, json.load raises JSONDecodeError *)
| FileJSON (v : pyval).      (* readable, json.load returns v *)

(** How one [_save_state] attempt goes. *)
Inductive save_outcome : Type :=
| SaveOk            (* file rewritten with the dumped ledger *)
| SaveOpenError     (* open(..., 'w') raises IOError: file untouched *)
| SaveWriteError.   (* json.dump raises IOError after truncation *)

(** How one [requests.post] goes.  [body_json] tells whether the
    response body decodes as JSON ([response.json()]); with
    requests >= 2.27 a body that does not decode raises
    [requests.exceptions.JSONDecodeError], a [RequestException]. *)
Inductive http_outcome : Type :=
| TransportError                                   (* post raises a RequestException *)
| Response (status_code : Z) (body_json : option pyval).

Record EventArgs : Type := mkArgs {
  sender : string;
  recipient : string;
  amount : Z;
  destinationChainId : Z
}.

Record LogReceipt : Type := mkLog {
  transactionHash : list Byte.byte;
  logIndex : Z;
  args : EventArgs
}.

(** The answers the environment gives while one event is processed:
    the HTTP exchange, the clock reading and the fate of the write.
    An answer is consumed only if the code reaches the call. *)
Record event_env : Type := mkEventEnv {
  http : http_outcome;
  now : float;
  save : save_outcome
}.

(** The answers the environment gives during one iteration of the
    polling loop. *)
Record cycle_env : Type := mkCycleEnv {
  latest : option Z;                                   (* get_latest_block_number() *)
  fetch : result (list (LogReceipt * event_env))       (* create_filter + get_all_entries *)
}.

(** ** Observable actions *)

Inductive level : Type := DEBUG | INFO | WARNING | ERROR | CRITICAL.

(** One constructor per logging call site of the pipeline. *)
Inductive log_msg : Type :=
| StateDBInitialized (n : Z)
| StateFileNotFound
| StateDecodeError
| SaveFailed
| EventMarked (event_signature : string)
| Relaying (payload : pyval)
| RelaySucceeded (response_json : pyval)
| RelayFailed
| SkippingProcessed (event_signature : string)
| ProcessingNew (event_signature : string)
| RelayingFailedRetry (event_signature : string)
| StartingListener (from_block : Z)
| NoLatestBlock
| WaitingForBlocks (cur target : Z)
| Scanning (cur target : Z)
| FoundEvents (n : Z)
| NoNewEvents
| LoopError (e : exn).

Inductive effect : Type :=
| Log (lvl : level) (msg : log_msg)
| Sleep (seconds : Z)
| GetLogs (fromBlock toBlock : Z)
| Post (payload : pyval).

(** ** Program state *)

(** The mutable attributes of the [StateDB] and [EventListener]
    instances together with the content of the state file. *)
Record state : Type := mkState {
  processed_events : pyval;
  state_file : file_state;
  current_block : Z;
  poll_interval : Z;
  reorg_confirmation_depth : Z
}.

Definition set_processed_events (v : pyval) (s : state) : state :=
  mkState v (state_file s) (current_block s) (poll_interval s)
          (reorg_confirmation_depth s).

Definition set_state_file (fs : file_state) (s : state) : state :=
  mkState (processed_events s) fs (current_block s) (poll_interval s)
          (reorg_confirmation_depth s).

Definition set_current_block (b : Z) (s : state) : state :=
  mkState (processed_events s) (state_file s) b (poll_interval s)
          (reorg_confirmation_depth s).

(** ** A monad for state, trace and exceptions

    A computation maps the state to an outcome, the state it leaves
    behind (also when it raises) and the actions it performed. *)
Definition M (A : Type) : Type := state -> result A * state * list effect.

Definition ret {A} (a : A) : M A := fun s => (Ok a, s, []).

Definition bind {A B} (m : M A) (k : A -> M B) : M B :=
  fun s =>
    match m s with
    | (Ok a, s1, t1) =>
        match k a s1 with
        | (r, s2, t2) => (r, s2, (t1 ++ t2)%list)
        end
    | (Raise e, s1, t1) => (Raise e, s1, t1)
    end.

Definition raise {A} (e : exn) : M A := fun s => (Raise e, s, []).

Definition lift {A} (r : result A) : M A := fun s => (r, s, []).

(** [try: m except Exception as e: h e]. *)
Definition try_except {A} (m : M A) (h : exn -> M A) : M A :=
  fun s =>
    match m s with
    | (Ok a, s1, t1) => (Ok a, s1, t1)
    | (Raise e, s1, t1) =>
        match h e s1 with
        | (r, s2, t2) => (r, s2, (t1 ++ t2)%list)
        end
    end.

Definition emit (e : effect) : M unit := fun s => (Ok tt, s, [e]).
Definition gets {A} (f : state -> A) : M A := fun s => (Ok (f s), s, []).
Definition modify (f : state -> state) : M unit := fun s => (Ok tt, f s, []).

Declare Scope py_scope.
Delimit Scope py_scope with py.
Notation "x <- m ;; k" := (bind m (fun x => k))
  (at level 61, m at next level, right associativity) : py_scope.
Notation "m ;; k" := (bind m (fun _ => k))
  (at level 61, right associativity) : py_scope.
Local Open Scope py_scope.

Definition logger (lvl : level) (msg : log_msg) : M unit := emit (Log lvl msg).
Definition time_sleep (seconds : Z) : M unit := emit (Sleep seconds).

Definition outcome {A} (x : result A * state * list effect) : result A := fst (fst x).
Definition final {A} (x : result A * state * list effect) : state := snd (fst x).
Definition actions {A} (x : result A * state * list effect) : list effect := snd x.

(** ** StateDB *)

Module StateDB.

(** [_load_state]: the parsed file, or an empty dict when the file is
    missing or does not decode. *)
Definition _load_state : M pyval :=
  fs <- gets state_file ;;
  match fs with
  | FileJSON v => ret v
  | FileAbsent => logger WARNING StateFileNotFound ;; ret (PDict [])
  | FileNotJSON => logger ERROR StateDecodeError ;; ret (PDict [])
  | FileUnreadable => raise OSError
  end.

(** [__init__]: load, then log the number of loaded entries. *)
Definition __init__ : M unit :=
  v <- _load_state ;;
  modify (set_processed_events v) ;;
  n <- lift (py_len v) ;;
  logger INFO (StateDBInitialized n).

(** [_save_state]: an IOError is logged and swallowed. *)
Definition _save_state (sv : save_outcome) : M unit :=
  match sv with
  | SaveOk =>
      v <- gets processed_events ;;
      modify (set_state_file (FileJSON v))
  | SaveOpenError => logger ERROR SaveFailed
  | SaveWriteError => modify (set_state_file FileNotJSON) ;; logger ERROR SaveFailed
  end.

Definition is_event_processed (event_signature : string) : M bool :=
  v <- gets processed_events ;;
  lift (py_contains event_signature v).

Definition mark_event_as_processed (event_signature : string) (event_data : pyval)
           (t : float) (sv : save_outcome) : M unit :=
  v <- gets processed_events ;;
  v' <- lift (py_setitem event_signature
                (PDict [("data", event_data); ("processed_at", PFloat t)]) v) ;;
  modify (set_processed_events v') ;;
  _save_state sv ;;
  logger INFO (EventMarked event_signature).

End StateDB.

(** ** RelayerService *)

Module RelayerService.

(** [response.raise_for_status()] raises for 400 <= status < 600. *)
Definition raises_for_status (status_code : Z) : bool :=
  (400 <=? status_code) && (status_code <? 600).

(** [relay_transaction]: POST the envelope; every RequestException
    raised inside the [try] block yields [False]. *)
Definition relay_transaction (event_data : pyval) (h : http_outcome) : M bool :=
  let payload := PDict [("eventType", PStr "TokensLocked"); ("payload", event_data)] in
  logger INFO (Relaying payload) ;;
  emit (Post payload) ;;
  match h with
  | TransportError => logger ERROR RelayFailed ;; ret false
  | Response status_code body_json =>
      if raises_for_status status_code then logger ERROR RelayFailed ;; ret false
      else match body_json with
           | Some j => logger INFO (RelaySucceeded j) ;; ret true
           | None => logger ERROR RelayFailed ;; ret false
           end
  end.

End RelayerService.

(** ** EventProcessor *)

Module EventProcessor.

Definition event_signature (event : LogReceipt) : string :=
  HexBytes_hex (transactionHash event) ++ "-" ++ str_of_int (logIndex event).

Definition processed_data (event : LogReceipt) : pyval :=
  let event_args := args event in
  PDict [("source_transaction_hash", PStr (HexBytes_hex (transactionHash event)));
         ("sender", PStr (sender event_args));
         ("recipient", PStr (recipient event_args));
         ("amount", PInt (amount event_args));
         ("destination_chain_id", PInt (destinationChainId event_args))].

Definition process_event (event : LogReceipt) (env : event_env) : M unit :=
  let sig := event_signature event in
  seen <- StateDB.is_event_processed sig ;;
  if (seen : bool) then logger DEBUG (SkippingProcessed sig)
  else
    logger INFO (ProcessingNew sig) ;;
    relayed <- RelayerService.relay_transaction (processed_data event) (http env) ;;
    if (relayed : bool)
    then StateDB.mark_event_as_processed sig (processed_data event) (now env) (save env)
    else logger WARNING (RelayingFailedRetry sig).

End EventProcessor.

(** ** EventListener *)

Module EventListener.

(** [__init__]: the attributes the constructor sets. *)
Definition __init__ (start_block : Z) (s : state) : state :=
  mkState (processed_events s) (state_file s) start_block 15 5.

(** [for event in events: self.processor.process_event(event)]. *)
Fixpoint for_events (events : list (LogReceipt * event_env)) : M unit :=
  match events with
  | [] => ret tt
  | (event, env) :: rest => EventProcessor.process_event event env ;; for_events rest
  end.

(** How the body of the [try] block leaves: by [continue] or by
    reaching its end. *)
Inductive flow : Type := Continue | Fallthrough.

(** The [try] block of one iteration of [while True]. *)
Definition try_body (env : cycle_env) : M flow :=
  match latest env with
  | None =>
      logger WARNING NoLatestBlock ;;
      p <- gets poll_interval ;;
      time_sleep p ;;
      ret Continue
  | Some latest_block =>
      d <- gets reorg_confirmation_depth ;;
      let target_block := latest_block - d in
      cur <- gets current_block ;;
      if cur >? target_block then
        logger INFO (WaitingForBlocks cur target_block) ;;
        p <- gets poll_interval ;;
        time_sleep p ;;
        ret Continue
      else
        logger INFO (Scanning cur target_block) ;;
        emit (GetLogs cur target_block) ;;
        events <- lift (fetch env) ;;
        match events with
        | _ :: _ =>
            logger INFO (FoundEvents (Z.of_nat (List.length events))) ;;
            for_events events
        | [] => logger INFO NoNewEvents
        end ;;
        modify (set_current_block (target_block + 1)) ;;
        ret Fallthrough
  end.

(** One iteration of [while True]: the [try] block, its handler and the
    closing sleep, which [continue] skips. *)
Definition poll_cycle (env : cycle_env) : M unit :=
  fl <- try_except (try_body env)
          (fun e =>
             logger ERROR (LoopError e) ;;
             p <- gets poll_interval ;;
             time_sleep (p * 2) ;;
             ret Fallthrough) ;;
  match fl with
  | Continue => ret tt
  | Fallthrough => p <- gets poll_interval ;; time_sleep p
  end.

(** The iterations of the loop for a finite prefix of the environment's
    answers. *)
Fixpoint cycles (envs : list cycle_env) : M unit :=
  match envs with
  | [] => ret tt
  | env :: rest => poll_cycle env ;; cycles rest
  end.

(** [start], observed for the iterations that [envs] covers. *)
Definition start (envs : list cycle_env) : M unit :=
  cur <- gets current_block ;;
  logger INFO (StartingListener cur) ;;
  cycles envs.

End EventListener.

(** ** Reading traces *)

Definition is_post (e : effect) : bool :=
  match e with Post _ => true | _ => false end.

Definition is_commit (e : effect) : bool :=
  match e with Log INFO (EventMarked _) => true | _ => false end.

(** Number of dispatch calls ([requests.post]) in a trace. *)
Definition dispatch_calls (t : list effect) : nat := List.length (filter is_post t).

(** Number of completed [mark_event_as_processed] calls in a trace. *)
Definition ledger_commits (t : list effect) : nat := List.length (filter is_commit t).

Definition ledger_has (sig : string) (s : state) : Prop :=
  py_contains sig (processed_events s) = Ok true.

(** What [relay_transaction] answers for this event under this
    environment. *)
Definition dispatch_result (event : LogReceipt) (env : event_env) (s : state)
  : result bool :=
  outcome (RelayerService.relay_transaction
             (EventProcessor.processed_data event) (http env) s).

(** The ranges queried in a trace, in order. *)
Fixpoint requested_ranges (t : list effect) : list (Z * Z) :=
  match t with
  | [] => []
  | GetLogs a b :: t' => (a, b) :: requested_ranges t'
  | _ :: t' => requested_ranges t'
  end.

(** The classification that [relay_transaction] computes, as a function
    of the HTTP exchange alone. *)
Definition accepted (h : http_outcome) : bool :=
  match h with
  | TransportError => false
  | Response status_code body_json =>
      negb (RelayerService.raises_for_status status_code)
      && match body_json with Some _ => true | None => false end
  end.

(** The record [relay_transaction] logs once the exchange is over. *)
Definition relay_log (h : http_outcome) : log_msg :=
  match h with
  | Response status_code (Some j) =>
      if RelayerService.raises_for_status status_code then RelayFailed
      else RelaySucceeded j
  | _ => RelayFailed
  end.

(** The listener's own attributes are the same in both states. *)
Definition same_listener (s s' : state) : Prop :=
  current_block s' = current_block s
  /\ poll_interval s' = poll_interval s
  /\ reorg_confirmation_depth s' = reorg_confirmation_depth s.

(** Whether some entry of the batch carries signature [k] together with
    an exchange that [relay_transaction] accepts. *)
Definition accepted_in (k : string) (batch : list (LogReceipt * event_env)) : bool :=
  existsb (fun p => String.eqb k (EventProcessor.event_signature (fst p))
                    && accepted (http (snd p))) batch.

(** ** Sample inputs *)

(** A lock event with transaction hash [ab0c] at log position 2. *)
Definition sample_event : LogReceipt :=
  mkLog [Byte.xab; Byte.x0c] 2 (mkArgs "0xS" "0xR" 10 7).

(** Three events of one batch: two logs of one transaction and a log of
    another. *)
Definition batch_event0 : LogReceipt :=
  mkLog [Byte.xab; Byte.x0c] 0 (mkArgs "0xS" "0xR" 10 7).
Definition batch_event1 : LogReceipt :=
  mkLog [Byte.xab; Byte.x0c] 1 (mkArgs "0xS" "0xR" 20 7).
Definition batch_event2 : LogReceipt :=
  mkLog [Byte.x11] 0 (mkArgs "0xS" "0xT" 30 7).

(** The endpoint answers 200 with a JSON body; the write succeeds. *)
Definition env_200 : event_env :=
  mkEventEnv (Response 200 (Some (PDict []))) 1.5%float SaveOk.

(** The endpoint answers 500. *)
Definition env_500 : event_env := mkEventEnv (Response 500 None) 1.5%float SaveOk.

(** A listener at block 80 with the constructor's interval and depth,
    an empty ledger and no state file. *)
Definition fresh_state : state := mkState (PDict []) FileAbsent 80 15 5.

(** The state before [StateDB.__init__] has run, for a given file. *)
Definition startup_state (fs : file_state) : state := mkState PNone fs 0 15 5.

(** A batch in which the dispatch of the middle event fails. *)
Definition sample_batch : list (LogReceipt * event_env) :=
  [(batch_event0, env_200); (batch_event1, env_500); (batch_event2, env_200)].

(** ** Reading ledgers and traces further *)

(** [d[k]] for a dict. *)
Fixpoint dict_get (k : string) (d : list (string * pyval)) : option pyval :=
  match d with
  | [] => None
  | (k', v) :: d' => if String.eqb k k' then Some v else dict_get k d'
  end.

(** The record [mark_event_as_processed] stores under a signature. *)
Definition event_record (event_data : pyval) (t : float) : pyval :=
  PDict [("data", event_data); ("processed_at", PFloat t)].

(** Every entry of [d] is an entry of [d'], under the same key and with
    the same value. *)
Definition entries_kept (d d' : list (string * pyval)) : Prop :=
  forall k v, dict_get k d = Some v -> dict_get k d' = Some v.

(** Number of completed commits of one signature in a trace. *)
Fixpoint commits_of (sig : string) (t : list effect) : nat :=
  match t with
  | [] => 0%nat
  | Log INFO (EventMarked k) :: t' =>
      ((if String.eqb k sig then 1 else 0) + commits_of sig t')%nat
  | _ :: t' => commits_of sig t'
  end.

(** Seconds slept in a trace. *)
Fixpoint total_sleep (t : list effect) : Z :=
  match t with
  | [] => 0
  | Sleep n :: t' => n + total_sleep t'
  | _ :: t' => total_sleep t'
  end.

(** Number of exceptions the loop's handler logged in a trace. *)
Fixpoint loop_errors (t : list effect) : Z :=
  match t with
  | [] => 0
  | Log ERROR (LoopError _) :: t' => 1 + loop_errors t'
  | _ :: t' => loop_errors t'
  end.

(** The value of a hexadecimal digit as [hex_digit] writes it. *)
Definition unhex_digit (c : ascii) : N :=
  match c with
  | "0" => 0 | "1" => 1 | "2" => 2 | "3" => 3 | "4" => 4 | "5" => 5
  | "6" => 6 | "7" => 7 | "8" => 8 | "9" => 9 | "a" => 10 | "b" => 11
  | "c" => 12 | "d" => 13 | "e" => 14 | _ => 15
  end%char%N.

(** The byte two hexadecimal digits stand for. *)
Definition byte_of_hex (hi lo : ascii) : option Byte.byte :=
  Byte.of_N (16 * unhex_digit hi + unhex_digit lo).

(** The events an iteration hands to the per-event loop: the fetched
    ones, or none when the iteration does not get that far. *)
Definition batch_of (env : cycle_env) (s : state) : list (LogReceipt * event_env) :=
  match latest env with
  | None => []
  | Some latest_block =>
      if current_block s >? latest_block - reorg_confirmation_depth s then []
      else match fetch env with
           | Ok events => events
           | Raise _ => []
           end
  end.

(** ** BlockchainConnector *)

Module BlockchainConnector.

(** The client object [Web3(Web3.HTTPProvider(rpc_url))]. *)
Inductive Web3 : Type := Web3Client (rpc_url : string).

(** The instance attributes. *)
Record t : Type := mk {
  rpc_url : string;
  web3 : option Web3
}.

(** One constructor per logging call site of the class. *)
Inductive msg : Type :=
| ConnectedTo (rpc_url : string)
| NotConnectedTo (rpc_url : string)
| ConnectException (rpc_url : string)
| ContractNotConnected
| BlockNumberNotConnected
| BlockNumberError.

(** What [get_contract] does: return [None], return a contract bound
    to the checksummed address, or let the exception of
    [to_checksum_address] through. *)
Inductive contract_result : Type :=
| NoContract
| Contract (address : string)
| InvalidAddress.

Definition __init__ (rpc_url : string) : t := mk rpc_url None.

(** [connect]: [constructs] tells whether building the client returns
    or raises, [is_connected] is the node's answer to the probe. *)
Definition connect (c : t) (constructs is_connected : bool)
  : bool * t * list (level * msg) :=
  if constructs then
    let c' := mk (rpc_url c) (Some (Web3Client (rpc_url c))) in
    if is_connected then (true, c', [(INFO, ConnectedTo (rpc_url c))])
    else (false, c', [(ERROR, NotConnectedTo (rpc_url c))])
  else (false, c, [(ERROR, ConnectException (rpc_url c))]).

(** [get_contract]: [to_checksum_address] is the library's conversion,
    [None] where it raises. *)
Definition get_contract (c : t) (address : string) (is_connected : bool)
           (to_checksum_address : string -> option string)
  : contract_result * list (level * msg) :=
  match web3 c with
  | None => (NoContract, [(ERROR, ContractNotConnected)])
  | Some _ =>
      if is_connected then
        match to_checksum_address address with
        | Some checksum_address => (Contract checksum_address, [])
        | None => (InvalidAddress, [])
        end
      else (NoContract, [(ERROR, ContractNotConnected)])
  end.

(** [get_latest_block_number]: [block_number] is the node's answer to
    the height query, [None] where the query raises. *)
Definition get_latest_block_number (c : t) (is_connected : bool) (block_number : option Z)
  : option Z * list (level * msg) :=
  match web3 c with
  | None => (None, [(ERROR, BlockNumberNotConnected)])
  | Some _ =>
      if is_connected then
        match block_number with
        | Some n => (Some n, [])
        | None => (None, [(ERROR, BlockNumberError)])
        end
      else (None, [(ERROR, BlockNumberNotConnected)])
  end.

End BlockchainConnector.

(** ** main *)

(** [c.lower()] on the ASCII letters; the other bytes of a string stay. *)
Definition ascii_lower (c : ascii) : ascii :=
  let n := nat_of_ascii c in
  if (Nat.leb 65 n && Nat.leb n 90)%bool then ascii_of_nat (n + 32) else c.

Fixpoint str_lower (s : string) : string :=
  match s with
  | EmptyString => EmptyString
  | String c s' => String (ascii_lower c) (str_lower s')
  end.

(** Truth value of what [os.getenv] returned. *)
Definition env_truthy (v : option string) : bool :=
  match v with
  | Some (String _ _) => true
  | Some EmptyString | None => false
  end.

(** [os.getenv(name, default)]. *)
Definition getenv_default (v : option string) (default : string) : string :=
  match v with Some x => x | None => default end.

(** What [main] finds around it: the environment variables, the
    answers of the node during startup and the answers during the
    iterations of the loop that are observed. *)
Record main_env : Type := mkMainEnv {
  SOURCE_RPC_URL : option string;
  BRIDGE_CONTRACT_ADDRESS : option string;
  RELAYER_API_ENDPOINT : option string;
  START_BLOCK : option string;
  client_constructs : bool;
  connected_on_connect : bool;
  connected_on_get_contract : bool;
  to_checksum_address : string -> option string;
  connected_on_start_block : bool;
  block_number_on_start : option Z;
  loop_answers : list cycle_env
}.

Inductive main_msg : Type :=
| MissingEnvironment
| Initializing
| ConnectFailedExiting
| ContractFailedExiting
| NoLatestBlockExiting
| InvalidStartBlock (value : string)
| UnhandledException (e : exn).

Inductive main_effect : Type :=
| MainLog (lvl : level) (m : main_msg)
| ConnectorLog (lvl : level) (m : BlockchainConnector.msg)
| Pipeline (e : effect).

(** An exception that leaves [main]. *)
Inductive main_exn : Type :=
| FromStateDB (e : exn)
| InvalidAddressError.

Inductive main_outcome : Type :=
| Returned
| Raised (e : main_exn).

Definition connector_logs (l : list (level * BlockchainConnector.msg)) : list main_effect :=
  map (fun p => ConnectorLog (fst p) (snd p)) l.

(** The tail of [main] once the start block is known: build the
    listener and run the loop. *)
Definition run_listener (start_block : Z) (env : main_env) (s : state)
  : main_outcome * state * list main_effect :=
  match EventListener.start (loop_answers env) (EventListener.__init__ start_block s) with
  | (Ok _, s', t) => (Returned, s', map Pipeline t)
  | (Raise e, s', t) =>
      (Returned, s', (map Pipeline t ++ [MainLog CRITICAL (UnhandledException e)])%list)
  end.

(** [main].  [py_int] is Python's [int] on strings, [None] where it
    raises [ValueError]; [fs] is what is found at [STATE_FILE]. *)
Definition main (py_int : string -> option Z) (env : main_env) (fs : file_state)
  : main_outcome * state * list main_effect :=
  let s0 := startup_state fs in
  let start_block_str := getenv_default (START_BLOCK env) "latest" in
  if negb (env_truthy (SOURCE_RPC_URL env) && env_truthy (BRIDGE_CONTRACT_ADDRESS env)
           && env_truthy (RELAYER_API_ENDPOINT env))
  then (Returned, s0, [MainLog CRITICAL MissingEnvironment])
  else
    let t0 := [MainLog INFO Initializing] in
    match StateDB.__init__ s0 with
    | (Raise e, s1, t1) => (Raised (FromStateDB e), s1, (t0 ++ map Pipeline t1)%list)
    | (Ok _, s1, t1) =>
        let t1' := (t0 ++ map Pipeline t1)%list in
        let c0 := BlockchainConnector.__init__ (getenv_default (SOURCE_RPC_URL env) "") in
        match BlockchainConnector.connect c0 (client_constructs env)
                (connected_on_connect env) with
        | (false, _, tc) =>
            (Returned, s1,
             (t1' ++ connector_logs tc ++ [MainLog CRITICAL ConnectFailedExiting])%list)
        | (true, c1, tc) =>
            let t2 := (t1' ++ connector_logs tc)%list in
            match BlockchainConnector.get_contract c1
                    (getenv_default (BRIDGE_CONTRACT_ADDRESS env) "")
                    (connected_on_get_contract env) (to_checksum_address env) with
            | (BlockchainConnector.InvalidAddress, tg) =>
                (Raised InvalidAddressError, s1, (t2 ++ connector_logs tg)%list)
            | (BlockchainConnector.NoContract, tg) =>
                (Returned, s1,
                 (t2 ++ connector_logs tg ++ [MainLog CRITICAL ContractFailedExiting])%list)
            | (BlockchainConnector.Contract _, tg) =>
                let t3 := (t2 ++ connector_logs tg)%list in
                if String.eqb (str_lower start_block_str) "latest" then
                  match BlockchainConnector.get_latest_block_number c1
                          (connected_on_start_block env) (block_number_on_start env) with
                  | (None, tl) =>
                      (Returned, s1,
                       (t3 ++ connector_logs tl
                           ++ [MainLog CRITICAL NoLatestBlockExiting])%list)
                  | (Some start_block, tl) =>
                      match run_listener start_block env s1 with
                      | (r, s2, t4) => (r, s2, (t3 ++ connector_logs tl ++ t4)%list)
                      end
                  end
                else
                  match py_int start_block_str with
                  | None =>
                      (Returned, s1,
                       (t3 ++ [MainLog CRITICAL (InvalidStartBlock start_block_str)])%list)
                  | Some start_block =>
                      match run_listener start_block env s1 with
                      | (r, s2, t4) => (r, s2, (t3 ++ t4)%list)
                      end
                  end
            end
        end
    end.

(** A reader of plain decimal numerals, standing in for [int] where a
    concrete function is needed. *)
Definition decimal_int (s : string) : option Z :=
  option_map Z.of_int (NilZero.int_of_string s).

(** A complete configuration with [START_BLOCK] unset, a reachable node
    at height 100 and one observed iteration at height 120 with an empty
    answer. *)
Definition sample_main_env : main_env :=
  mkMainEnv (Some "http://node") (Some "0xBridge") (Some "http://relay") None
            true true true (fun a => Some a) true (Some 100)
            [mkCycleEnv (Some 120) (Ok [])].

(** The ranges requested in a trace of [main]. *)
Fixpoint main_requested_ranges (t : list main_effect) : list (Z * Z) :=
  match t with
  | [] => []
  | Pipeline (GetLogs a b) :: t' => (a, b) :: main_requested_ranges t'
  | _ :: t' => main_requested_ranges t'
  end.

(** Whether a trace of [main] shows the loop being entered. *)
Fixpoint entered_loop (t : list main_effect) : option Z :=
  match t with
  | [] => None
  | Pipeline (Log INFO (StartingListener n)) :: _ => Some n
  | _ :: t' => entered_loop t'
  end.

Definition main_result (x : main_outcome * state * list main_effect) : main_outcome :=
  fst (fst x).
Definition main_final (x : main_outcome * state * list main_effect) : state :=
  snd (fst x).
Definition main_trace (x : main_outcome * state * list main_effect) : list main_effect :=
  snd x.

(** Whether the three required variables are all set and non-empty. *)
Definition configured (env : main_env) : bool :=
  env_truthy (SOURCE_RPC_URL env) && env_truthy (BRIDGE_CONTRACT_ADDRESS env)
  && env_truthy (RELAYER_API_ENDPOINT env).

(** The ledger a fresh [StateDB] would load from a state file. *)
Definition reload (fs : file_state) : result pyval :=
  outcome (StateDB._load_state (startup_state fs)).

(** Every write of the observed iterations succeeds. *)
Definition batch_saves_ok (batch : list (LogReceipt * event_env)) : Prop :=
  Forall (fun p => save (snd p) = SaveOk) batch.

Definition saves_ok (envs : list cycle_env) : Prop :=
  Forall (fun env => match fetch env with
                     | Ok batch => batch_saves_ok batch
                     | Raise _ => True
                     end) envs.

(** ** csv_validator.py *)

Module CsvValidator.

(** A type as [validate_csv] uses it: its [__name__], whether it is
    [str], and whether calling it on a string returns ([true]) or raises
    [ValueError] or [TypeError] ([false]). *)
Record pytype : Type := mkType {
  type_name : string;
  is_str : bool;
  accepts : string -> bool
}.

(** An exception that reaches the outer handler. *)
Inductive failure : Type :=
| KeyError (key : string)
| OtherError (text : string).

(** One constructor per error message of the function. *)
Inductive message : Type :=
| EmptyOrHeaderOnly
| MissingColumns (names : list string)
| Mismatched (row_num expected found : Z)
| CannotCast (row_num : Z) (col_name value type_name : string)
| FileNotFoundAt (filepath : string)
| UnexpectedError (e : failure).

(** What [open] and [csv.reader] make of the path: no such file, another
    exception on opening, or the rows the reader yields, after which it
    either stops or raises ([breaks]). *)
Inductive csv_source : Type :=
| NoSuchFile
| OpenRaises (text : string)
| Rows (rows : list (list string)) (breaks : option string).

Definition mem (x : string) (l : list string) : bool := existsb (String.eqb x) l.

Fixpoint insert_sorted (x : string) (l : list string) : list string :=
  match l with
  | [] => [x]
  | y :: l' => if String.leb x y then x :: y :: l' else y :: insert_sorted x l'
  end.

(** [sorted(...)] on strings. *)
Fixpoint sorted (l : list string) : list string :=
  match l with
  | [] => []
  | x :: l' => insert_sorted x (sorted l')
  end.

(** [sorted(list(set(expected_columns) - set(header)))]. *)
Definition missing_columns (expected_columns header : list string) : list string :=
  sorted (nodup string_dec (filter (fun c => negb (mem c header)) expected_columns)).

(** [header_map[name]] for [{name: i for i, name in enumerate(header)}],
    counting from [i]: the last position of the name, or [None] where
    the lookup raises [KeyError]. *)
Fixpoint header_map_get (name : string) (header : list string) (i : nat) : option nat :=
  match header with
  | [] => None
  | h :: rest =>
      match header_map_get name rest (S i) with
      | Some j => Some j
      | None => if String.eqb name h then Some i else None
      end
  end.

(** The inner loop over [column_types.items()] for one row whose length
    is that of the header.  [blank v] is [not v.strip()]. *)
Fixpoint check_columns (blank : string -> bool) (header row : list string) (row_num : Z)
         (column_types : list (string * pytype)) : failure + list message :=
  match column_types with
  | [] => inr []
  | (col_name, expected_type) :: rest =>
      match header_map_get col_name header 0 with
      | None => inl (KeyError col_name)
      | Some col_index =>
          let value := nth col_index row "" in
          let here :=
            if blank value && negb (is_str expected_type) then []
            else if accepts expected_type value then []
                 else [CannotCast row_num col_name value (type_name expected_type)] in
          match check_columns blank header row row_num rest with
          | inl e => inl e
          | inr errors => inr (here ++ errors)%list
          end
      end
  end.

(** The loop over the data rows, numbered from [row_num]. *)
Fixpoint check_rows (blank : string -> bool) (header : list string)
         (column_types : list (string * pytype)) (rows : list (list string)) (row_num : Z)
  : failure + list message :=
  match rows with
  | [] => inr []
  | row :: rest =>
      if negb (Nat.eqb (List.length row) (List.length header)) then
        match check_rows blank header column_types rest (row_num + 1) with
        | inl e => inl e
        | inr errors =>
            inr (Mismatched row_num (Z.of_nat (List.length header))
                            (Z.of_nat (List.length row)) :: errors)
        end
      else
        match check_columns blank header row row_num column_types with
        | inl e => inl e
        | inr here =>
            match check_rows blank header column_types rest (row_num + 1) with
            | inl e => inl e
            | inr errors => inr (here ++ errors)%list
            end
        end
  end.

Definition validate_csv (blank : string -> bool) (filepath : string)
           (expected_columns : list string) (column_types : list (string * pytype))
           (src : csv_source) : bool * list message :=
  match src with
  | NoSuchFile => (false, [FileNotFoundAt filepath])
  | OpenRaises text => (false, [UnexpectedError (OtherError text)])
  | Rows [] None => (false, [EmptyOrHeaderOnly])
  | Rows [] (Some text) => (false, [UnexpectedError (OtherError text)])
  | Rows (header :: rows) breaks =>
      match missing_columns expected_columns header with
      | (_ :: _) as missing => (false, [MissingColumns missing])
      | [] =>
          match check_rows blank header column_types rows 2 with
          | inl e => (false, [UnexpectedError e])
          | inr errors =>
              match breaks with
              | Some text => (false, [UnexpectedError (OtherError text)])
              | None => (match errors with [] => true | _ :: _ => false end, errors)
              end
          end
      end
  end.


(** [int] restricted to what the samples need, and [str]. *)
Definition sample_int : pytype :=
  mkType "int" false (fun v => match decimal_int v with Some _ => true | None => false end).
Definition sample_str : pytype := mkType "str" true (fun _ => true).

(** Blankness for strings of spaces. *)
Fixpoint sample_blank (v : string) : bool :=
  match v with
  | EmptyString => true
  | String c v' => Ascii.eqb c " " && sample_blank v'
  end.

End CsvValidator.



(** * Properties *)

(** ** Dictionaries *)

Lemma dict_contains_setitem_same (k : string) (v : pyval) (d : list (string * pyval)) :
  dict_contains k (dict_setitem k v d) = true.
Proof.
  induction d as [|[k' v'] d IH]; simpl.
  - now rewrite String.eqb_refl.
  - destruct (String.eqb k k') eqn:E; simpl; rewrite E; auto.
Qed.

Lemma dict_contains_setitem_other (k k0 : string) (v : pyval) (d : list (string * pyval)) :
  k0 <> k -> dict_contains k0 (dict_setitem k v d) = dict_contains k0 d.
Proof.
  intros Hne. induction d as [|[k' v'] d IH]; simpl.
  - apply String.eqb_neq in Hne. now rewrite Hne.
  - destruct (String.eqb k k') eqn:E; simpl; [reflexivity|].
    now rewrite IH.
Qed.

Lemma dict_contains_setitem (k k0 : string) (v : pyval) (d : list (string * pyval)) :
  dict_contains k0 (dict_setitem k v d) = String.eqb k0 k || dict_contains k0 d.
Proof.
  destruct (String.eqb k0 k) eqn:E.
  - apply String.eqb_eq in E; subst. apply dict_contains_setitem_same.
  - apply String.eqb_neq in E. now apply dict_contains_setitem_other.
Qed.

(** ** StateDB *)

Section StateDBFacts.

Variable s : state.

Lemma load_state_absent :
  state_file s = FileAbsent ->
  StateDB._load_state s = (Ok (PDict []), s, [Log WARNING StateFileNotFound]).
Proof. intros H. unfold StateDB._load_state, bind, gets. simpl. now rewrite H. Qed.

Lemma load_state_not_json :
  state_file s = FileNotJSON ->
  StateDB._load_state s = (Ok (PDict []), s, [Log ERROR StateDecodeError]).
Proof. intros H. unfold StateDB._load_state, bind, gets. simpl. now rewrite H. Qed.

Lemma load_state_json (v : pyval) :
  state_file s = FileJSON v -> StateDB._load_state s = (Ok v, s, []).
Proof. intros H. unfold StateDB._load_state, bind, gets. simpl. now rewrite H. Qed.

Lemma load_state_unreadable :
  state_file s = FileUnreadable -> StateDB._load_state s = (Raise OSError, s, []).
Proof. intros H. unfold StateDB._load_state, bind, gets. simpl. now rewrite H. Qed.

Lemma is_event_processed_run (sig : string) :
  StateDB.is_event_processed sig s = (py_contains sig (processed_events s), s, []).
Proof.
  unfold StateDB.is_event_processed, bind, gets, lift. simpl.
  now destruct (py_contains sig (processed_events s)).
Qed.

Lemma mark_event_dict (sig : string) (data : pyval) (t : float) (sv : save_outcome)
      (d : list (string * pyval)) :
  processed_events s = PDict d ->
  let d' := PDict (dict_setitem sig (PDict [("data", data); ("processed_at", PFloat t)]) d) in
  StateDB.mark_event_as_processed sig data t sv s =
  match sv with
  | SaveOk =>
      (Ok tt, set_state_file (FileJSON d') (set_processed_events d' s),
       [Log INFO (EventMarked sig)])
  | SaveOpenError =>
      (Ok tt, set_processed_events d' s,
       [Log ERROR SaveFailed; Log INFO (EventMarked sig)])
  | SaveWriteError =>
      (Ok tt, set_state_file FileNotJSON (set_processed_events d' s),
       [Log ERROR SaveFailed; Log INFO (EventMarked sig)])
  end.
Proof.
  intros Hd. unfold StateDB.mark_event_as_processed, bind, gets, lift. simpl.
  rewrite Hd. simpl. destruct sv; reflexivity.
Qed.

Lemma mark_event_not_dict (sig : string) (data : pyval) (t : float) (sv : save_outcome) :
  ~ is_dict (processed_events s) ->
  StateDB.mark_event_as_processed sig data t sv s = (Raise TypeError, s, []).
Proof.
  intros Hd. unfold StateDB.mark_event_as_processed, bind, gets, lift. simpl.
  destruct (processed_events s); simpl in *; try reflexivity. now destruct Hd.
Qed.

End StateDBFacts.

(** ** RelayerService *)

Lemma relay_transaction_run (data : pyval) (h : http_outcome) (s : state) :
  RelayerService.relay_transaction data h s =
  (Ok (accepted h), s,
   [Log INFO (Relaying (PDict [("eventType", PStr "TokensLocked"); ("payload", data)]));
    Post (PDict [("eventType", PStr "TokensLocked"); ("payload", data)]);
    Log (if accepted h then INFO else ERROR) (relay_log h)]).
Proof.
  unfold RelayerService.relay_transaction, accepted, relay_log.
  destruct h as [|c [j|]]; simpl; try reflexivity;
    destruct (RelayerService.raises_for_status c); reflexivity.
Qed.

Lemma relay_log_accepted (h : http_outcome) :
  accepted h = true -> exists j, relay_log h = RelaySucceeded j.
Proof.
  unfold accepted, relay_log. destruct h as [|c [j|]]; try discriminate.
  - destruct (RelayerService.raises_for_status c); [discriminate|]. now exists j.
  - now rewrite andb_false_r.
Qed.

Lemma relay_log_rejected (h : http_outcome) :
  accepted h = false -> relay_log h = RelayFailed.
Proof.
  unfold accepted, relay_log. destruct h as [|c [j|]]; try reflexivity.
  now destruct (RelayerService.raises_for_status c).
Qed.

Lemma dispatch_result_accepted (event : LogReceipt) (env : event_env) (s : state) :
  dispatch_result event env s = Ok (accepted (http env)).
Proof.
  unfold dispatch_result.
  now rewrite relay_transaction_run.
Qed.

Lemma relay_4xx_5xx_fails (data : pyval) (c : Z) (b : option pyval) (s : state) :
  400 <= c < 600 ->
  outcome (RelayerService.relay_transaction data (Response c b) s) = Ok false.
Proof.
  intros Hc. rewrite relay_transaction_run.
  unfold outcome; simpl. unfold RelayerService.raises_for_status.
  replace (400 <=? c) with true by (symmetry; apply Z.leb_le; lia).
  replace (c <? 600) with true by (symmetry; apply Z.ltb_lt; lia).
  reflexivity.
Qed.

Lemma relay_transport_error_fails (data : pyval) (s : state) :
  outcome (RelayerService.relay_transaction data TransportError s) = Ok false.
Proof. reflexivity. Qed.

Lemma relay_2xx_json_succeeds (data : pyval) (c : Z) (j : pyval) (s : state) :
  200 <= c < 300 ->
  outcome (RelayerService.relay_transaction data (Response c (Some j)) s) = Ok true.
Proof.
  intros Hc. rewrite relay_transaction_run.
  unfold outcome; simpl. unfold RelayerService.raises_for_status.
  replace (400 <=? c) with false by (symmetry; apply Z.leb_gt; lia).
  reflexivity.
Qed.

(** A final 3xx answer (a redirect that requests does not follow, such
    as 304) is outside the range [raise_for_status] rejects. *)
Lemma relay_304_json_succeeds (data : pyval) (j : pyval) (s : state) :
  outcome (RelayerService.relay_transaction data (Response 304 (Some j)) s) = Ok true.
Proof. reflexivity. Qed.

(** C8, where the code departs from its docstring: a 2xx response
    whose body does not decode as JSON (such as 204 with its empty body)
    makes [relay_transaction] log a failure and return [False], because
    [response.json()] is evaluated for the success log line inside the
    [try] block. *)
Theorem relay_2xx_undecodable_body_fails (data : pyval) (c : Z) (s : state) :
  200 <= c < 300 ->
  RelayerService.relay_transaction data (Response c None) s =
  (Ok false, s,
   [Log INFO (Relaying (PDict [("eventType", PStr "TokensLocked"); ("payload", data)]));
    Post (PDict [("eventType", PStr "TokensLocked"); ("payload", data)]);
    Log ERROR RelayFailed]).
Proof.
  intros Hc. rewrite relay_transaction_run.
  unfold accepted, relay_log. now rewrite andb_false_r.
Qed.

Lemma relay_2xx_undecodable_body_fails_witness :
  outcome (RelayerService.relay_transaction
             (EventProcessor.processed_data sample_event) (Response 204 None) fresh_state)
  = Ok false.
Proof.
  assert (Hc : 200 <= 204 < 300) by lia.
  rewrite (relay_2xx_undecodable_body_fails _ 204 fresh_state Hc).
  reflexivity.
Defined.

(** C5, refuted: a state file that exists but does not decode as JSON
    makes [_load_state] return the empty dict, and [__init__] then
    completes with an empty ledger. *)
Lemma load_state_corrupt_gives_empty :
  outcome (StateDB._load_state (startup_state FileNotJSON)) = Ok (PDict [])
  /\ outcome (StateDB.__init__ (startup_state FileNotJSON)) = Ok tt
  /\ processed_events (final (StateDB.__init__ (startup_state FileNotJSON))) = PDict [].
Proof. repeat split. Qed.

(** C5, as the code has it: both an absent state file and one that does
    not decode as JSON yield the empty ledger and startup goes on; the
    first is logged as a warning, the second as an error. *)
Theorem load_state_empty_on_absent_or_corrupt (s : state) :
  state_file s = FileAbsent \/ state_file s = FileNotJSON ->
  outcome (StateDB._load_state s) = Ok (PDict [])
  /\ final (StateDB._load_state s) = s
  /\ actions (StateDB._load_state s) =
     [match state_file s with
      | FileNotJSON => Log ERROR StateDecodeError
      | _ => Log WARNING StateFileNotFound
      end]
  /\ outcome (StateDB.__init__ s) = Ok tt
  /\ final (StateDB.__init__ s) = set_processed_events (PDict []) s
  /\ In (Log INFO (StateDBInitialized 0)) (actions (StateDB.__init__ s)).
Proof.
  intros [E|E].
  - unfold StateDB.__init__, bind. rewrite (load_state_absent s E), E.
    repeat split. simpl. auto.
  - unfold StateDB.__init__, bind. rewrite (load_state_not_json s E), E.
    repeat split. simpl. auto.
Qed.

Lemma load_state_empty_on_absent_or_corrupt_witness :
  outcome (StateDB.__init__ (startup_state FileNotJSON)) = Ok tt
  /\ final (StateDB.__init__ (startup_state FileNotJSON))
     = set_processed_events (PDict []) (startup_state FileNotJSON).
Proof.
  destruct (load_state_empty_on_absent_or_corrupt (startup_state FileNotJSON)
              (or_intror eq_refl)) as (_ & _ & _ & H4 & H5 & _).
  split; [exact H4 | exact H5].
Defined.

(** C10, refuted at two inputs.  A state file holding the JSON text of
    an empty object is present and valid, and [_load_state] returns the
    empty ledger for it.  A state file holding the number 5 is returned
    as it is, but [__init__] then raises [TypeError] on [len], and a
    membership test against that value raises as well. *)
Lemma load_state_valid_json_cases :
  outcome (StateDB._load_state (startup_state (FileJSON (PDict [])))) = Ok (PDict [])
  /\ FileJSON (PDict []) <> FileAbsent /\ FileJSON (PDict []) <> FileNotJSON
  /\ outcome (StateDB._load_state (startup_state (FileJSON (PInt 5)))) = Ok (PInt 5)
  /\ outcome (StateDB.__init__ (startup_state (FileJSON (PInt 5)))) = Raise TypeError
  /\ outcome (StateDB.is_event_processed "0xab0c-2"
                (set_processed_events (PInt 5) (startup_state (FileJSON (PInt 5)))))
     = Raise TypeError.
Proof. repeat split; discriminate. Qed.

(** C10, as the code has it: [_load_state] falls back to the empty dict
    when the file is absent or does not decode, raises when the file
    cannot be read, and returns any decoded value unvalidated; so its
    result is the empty ledger exactly when the file is absent, does not
    decode, or holds an empty object.  [__init__] completes unless the
    file cannot be read or holds a value without a length (a number, a
    boolean or null).  [is_event_processed] tests keys of a dict,
    elements of a list and substrings of a string, and raises
    [TypeError] on a number, a boolean or null. *)
Theorem load_state_characterised (s : state) (sig : string) :
  (forall v, state_file s = FileJSON v ->
             StateDB._load_state s = (Ok v, s, []))
  /\ (outcome (StateDB._load_state s) = Ok (PDict []) <->
      state_file s = FileAbsent \/ state_file s = FileNotJSON
      \/ state_file s = FileJSON (PDict []))
  /\ (state_file s = FileUnreadable <-> outcome (StateDB._load_state s) = Raise OSError)
  /\ outcome (StateDB.__init__ s) =
     match state_file s with
     | FileUnreadable => Raise OSError
     | FileJSON (PNone | PBool _ | PInt _ | PFloat _) => Raise TypeError
     | _ => Ok tt
     end
  /\ final (StateDB.is_event_processed sig s) = s
  /\ outcome (StateDB.is_event_processed sig s) =
     match processed_events s with
     | PDict d => Ok (dict_contains sig d)
     | PList l => Ok (existsb (str_eq_val sig) l)
     | PStr x => Ok (is_substring sig x)
     | PNone | PBool _ | PInt _ | PFloat _ => Raise TypeError
     end.
Proof.
  split; [|split; [|split; [|split; [|split]]]].
  - intros v Hv. now apply load_state_json.
  - destruct (state_file s) as [| | |v] eqn:E.
    + rewrite (load_state_absent s E). unfold outcome; simpl. tauto.
    + rewrite (load_state_unreadable s E). unfold outcome; simpl.
      split; [discriminate|]. intros [H|[H|H]]; discriminate.
    + rewrite (load_state_not_json s E). unfold outcome; simpl. tauto.
    + rewrite (load_state_json s v E). unfold outcome; simpl.
      split.
      * intros H. injection H as ->. tauto.
      * intros [H|[H|H]]; try discriminate. now injection H as ->.
  - destruct (state_file s) as [| | |v] eqn:E.
    + rewrite (load_state_absent s E). split; discriminate.
    + rewrite (load_state_unreadable s E). split; reflexivity.
    + rewrite (load_state_not_json s E). split; discriminate.
    + rewrite (load_state_json s v E). split; discriminate.
  - unfold StateDB.__init__, bind.
    destruct (state_file s) as [| | |v] eqn:E.
    + now rewrite (load_state_absent s E).
    + now rewrite (load_state_unreadable s E).
    + now rewrite (load_state_not_json s E).
    + rewrite (load_state_json s v E). now destruct v.
  - now rewrite is_event_processed_run.
  - rewrite is_event_processed_run. unfold outcome; simpl.
    now destruct (processed_events s).
Qed.

Lemma load_state_characterised_witness :
  StateDB._load_state (startup_state (FileJSON (PList [PStr "0xab0c-2"]))) =
  (Ok (PList [PStr "0xab0c-2"]), startup_state (FileJSON (PList [PStr "0xab0c-2"])), []).
Proof.
  exact (proj1 (load_state_characterised
                  (startup_state (FileJSON (PList [PStr "0xab0c-2"]))) "0xab0c-2")
               (PList [PStr "0xab0c-2"]) eq_refl).
Defined.

(** C4, refuted: with an empty ledger and no state file, a commit whose
    write fails on [open] returns normally, leaves the signature in the
    in-memory ledger and leaves the file absent. *)
Lemma mark_event_save_fails_no_rollback :
  outcome (StateDB.mark_event_as_processed "0xab0c-2" (PDict []) 1.5%float
             SaveOpenError fresh_state) = Ok tt
  /\ outcome (StateDB.is_event_processed "0xab0c-2"
                (final (StateDB.mark_event_as_processed "0xab0c-2" (PDict []) 1.5%float
                          SaveOpenError fresh_state))) = Ok true
  /\ state_file (final (StateDB.mark_event_as_processed "0xab0c-2" (PDict []) 1.5%float
                          SaveOpenError fresh_state)) = FileAbsent.
Proof. repeat split. Qed.

(** C4, as the code has it: on a dict ledger the commit never raises;
    the signature is in the in-memory ledger afterwards whatever the
    write did.  A successful write leaves the file equal to the ledger;
    a failed one is logged as an error by [_save_state] and leaves the
    file untouched (failure on open) or undecodable (failure while
    writing), with the in-memory insert kept. *)
Theorem mark_event_keeps_insert_on_io_error
        (s : state) (sig : string) (data : pyval) (t : float) (sv : save_outcome) :
  is_dict (processed_events s) ->
  let r := StateDB.mark_event_as_processed sig data t sv s in
  outcome r = Ok tt
  /\ outcome (StateDB.is_event_processed sig (final r)) = Ok true
  /\ (sv = SaveOk -> state_file (final r) = FileJSON (processed_events (final r)))
  /\ (sv = SaveOpenError ->
      state_file (final r) = state_file s /\ In (Log ERROR SaveFailed) (actions r))
  /\ (sv = SaveWriteError ->
      state_file (final r) = FileNotJSON /\ In (Log ERROR SaveFailed) (actions r)).
Proof.
  intros Hd r. subst r.
  destruct (processed_events s) as [| | | | | |d] eqn:E; try contradiction.
  rewrite (mark_event_dict s sig data t sv d E).
  rewrite is_event_processed_run.
  destruct sv; unfold outcome, final, actions; simpl;
    rewrite dict_contains_setitem_same;
    repeat split; try discriminate; auto.
Qed.

Lemma mark_event_keeps_insert_on_io_error_witness :
  outcome (StateDB.is_event_processed "0xab0c-2"
             (final (StateDB.mark_event_as_processed "0xab0c-2" (PDict []) 1.5%float
                       SaveWriteError fresh_state))) = Ok true
  /\ state_file (final (StateDB.mark_event_as_processed "0xab0c-2" (PDict []) 1.5%float
                          SaveWriteError fresh_state)) = FileNotJSON.
Proof.
  destruct (mark_event_keeps_insert_on_io_error fresh_state "0xab0c-2" (PDict [])
              1.5%float SaveWriteError I) as (_ & H2 & _ & _ & H5).
  split; [exact H2 | exact (proj1 (H5 eq_refl))].
Defined.

(** ** EventProcessor *)

Lemma same_listener_refl (s : state) : same_listener s s.
Proof. repeat split. Qed.

Lemma same_listener_trans (s1 s2 s3 : state) :
  same_listener s1 s2 -> same_listener s2 s3 -> same_listener s1 s3.
Proof. unfold same_listener. intuition congruence. Qed.

(** [process_event] unfolded along its branches. *)
Lemma process_event_run (event : LogReceipt) (env : event_env) (s : state) :
    EventProcessor.process_event event env s =
    let sig := EventProcessor.event_signature event in
    let data := EventProcessor.processed_data event in
    let payload := PDict [("eventType", PStr "TokensLocked"); ("payload", data)] in
    let pre := [Log INFO (ProcessingNew sig); Log INFO (Relaying payload); Post payload;
                Log (if accepted (http env) then INFO else ERROR)
                    (relay_log (http env))] in
    match py_contains sig (processed_events s) with
    | Raise x => (Raise x, s, [])
    | Ok true => (Ok tt, s, [Log DEBUG (SkippingProcessed sig)])
    | Ok false =>
        if accepted (http env) then
          match StateDB.mark_event_as_processed sig data (now env) (save env) s with
          | (r, s', t) => (r, s', (pre ++ t)%list)
          end
        else (Ok tt, s, (pre ++ [Log WARNING (RelayingFailedRetry sig)])%list)
    end.
Proof.
  unfold EventProcessor.process_event, bind.
  rewrite is_event_processed_run.
  destruct (py_contains _ (processed_events s)) as [[|]|x]; try reflexivity.
  unfold logger, emit at 1. cbv iota beta. rewrite relay_transaction_run.
  destruct (accepted (http env)).
  - destruct (StateDB.mark_event_as_processed _ _ _ _ s) as [[r s'] t]. reflexivity.
  - reflexivity.
Qed.

(** Whatever the ledger holds, [process_event] touches neither the
    listener's attributes nor the chain client. *)
Lemma process_event_frame (event : LogReceipt) (env : event_env) (s : state) :
  same_listener s (final (EventProcessor.process_event event env s))
  /\ requested_ranges (actions (EventProcessor.process_event event env s)) = [].
Proof.
  rewrite process_event_run. cbv zeta.
  destruct (py_contains _ (processed_events s)) as [[|]|x];
    try (split; [apply same_listener_refl | reflexivity]).
  destruct (accepted (http env));
    try (split; [apply same_listener_refl | reflexivity]).
  destruct (processed_events s) as [| | | | | |d] eqn:E;
    try (rewrite mark_event_not_dict by (rewrite E; simpl; tauto);
         split; [apply same_listener_refl | reflexivity]).
  rewrite (mark_event_dict s _ _ _ _ d E).
  destruct (save env); split; reflexivity || (repeat split).
Qed.

(** On a dict ledger [process_event] returns normally; the ledger stays
    a dict whose keys are the old ones plus, when the event was new and
    its dispatch was accepted, the event's signature. *)
Lemma process_event_dict (event : LogReceipt) (env : event_env) (s : state)
      (d : list (string * pyval)) :
  processed_events s = PDict d ->
  let sig := EventProcessor.event_signature event in
  let r := EventProcessor.process_event event env s in
  outcome r = Ok tt
  /\ (exists d', processed_events (final r) = PDict d'
      /\ forall k, dict_contains k d' =
                   dict_contains k d || (String.eqb k sig && accepted (http env)))
  /\ dispatch_calls (actions r) = (if dict_contains sig d then 0 else 1)%nat
  /\ ledger_commits (actions r) =
     (if dict_contains sig d then 0 else if accepted (http env) then 1 else 0)%nat
  /\ (dict_contains sig d = true \/ accepted (http env) = false -> final r = s).
Proof.
  intros Hd sig r. subst r.
  rewrite process_event_run. cbv zeta. fold sig.
  rewrite Hd. simpl py_contains.
  destruct (dict_contains sig d) eqn:Hin.
  - unfold outcome, final, actions; simpl. repeat split; auto.
    exists d. split; [assumption|]. intros k.
    destruct (String.eqb k sig) eqn:Ek; [|now rewrite orb_false_r].
    apply String.eqb_eq in Ek; subst k. now rewrite Hin.
  - destruct (accepted (http env)) eqn:Hacc.
    + destruct (relay_log_accepted _ Hacc) as [j ->].
      rewrite (mark_event_dict s _ _ _ _ d Hd).
      destruct (save env); unfold outcome, final, actions; simpl;
        (split; [reflexivity|]; split; [|split; [reflexivity|]; split; [reflexivity|]];
         [ eexists; split; [reflexivity|]; intros k;
           rewrite dict_contains_setitem, andb_true_r; apply orb_comm
         | intros [H|H]; discriminate ]).
    + rewrite (relay_log_rejected _ Hacc).
      unfold outcome, final, actions; simpl. repeat split; auto.
      exists d. split; [assumption|]. intros k. now rewrite andb_false_r, orb_false_r.
Qed.

Lemma outcome_triple {A : Type} (r : result A) (s : state) (t : list effect) :
  outcome (r, s, t) = r.
Proof. reflexivity. Qed.

Lemma final_triple {A : Type} (r : result A) (s : state) (t : list effect) :
  final (r, s, t) = s.
Proof. reflexivity. Qed.

Lemma actions_triple {A : Type} (r : result A) (s : state) (t : list effect) :
  actions (r, s, t) = t.
Proof. reflexivity. Qed.

Lemma bind_ok {A B : Type} (m : M A) (k : A -> M B) (s : state) (a : A) :
  outcome (m s) = Ok a ->
  bind m k s =
  (outcome (k a (final (m s))), final (k a (final (m s))),
   (actions (m s) ++ actions (k a (final (m s))))%list).
Proof.
  unfold bind, outcome, final, actions.
  destruct (m s) as [[r s1] t1]; simpl. intros ->.
  now destruct (k a s1) as [[r2 s2] t2].
Qed.

Lemma process_event_seen (event : LogReceipt) (env : event_env) (s : state) :
  ledger_has (EventProcessor.event_signature event) s ->
  EventProcessor.process_event event env s =
  (Ok tt, s, [Log DEBUG (SkippingProcessed (EventProcessor.event_signature event))]).
Proof.
  unfold ledger_has. intros H. rewrite process_event_run. cbv zeta. now rewrite H.
Qed.

Lemma dispatch_calls_app (t1 t2 : list effect) :
  dispatch_calls (t1 ++ t2) = (dispatch_calls t1 + dispatch_calls t2)%nat.
Proof. unfold dispatch_calls. now rewrite filter_app, length_app. Qed.

Lemma ledger_commits_app (t1 t2 : list effect) :
  ledger_commits (t1 ++ t2) = (ledger_commits t1 + ledger_commits t2)%nat.
Proof. unfold ledger_commits. now rewrite filter_app, length_app. Qed.

(** C1, refuted: on an empty ledger, processing an event twice while
    the endpoint answers 500 both times makes two dispatch calls and no
    commit. *)
Lemma twice_rejected_dispatches_twice :
  outcome ((EventProcessor.process_event sample_event env_500 ;;
            EventProcessor.process_event sample_event env_500) fresh_state) = Ok tt
  /\ dispatch_calls
       (actions ((EventProcessor.process_event sample_event env_500 ;;
                  EventProcessor.process_event sample_event env_500) fresh_state)) = 2%nat
  /\ ledger_commits
       (actions ((EventProcessor.process_event sample_event env_500 ;;
                  EventProcessor.process_event sample_event env_500) fresh_state)) = 0%nat.
Proof. repeat split. Qed.

(** C1, as the code has it.  Let [E] be processed twice in a row.  If
    the ledger already contains [E]'s signature, each call only logs the
    skip: no dispatch call, state unchanged.  If the ledger is a dict
    without the signature and the first dispatch is accepted, the two
    calls together make exactly one dispatch call and one commit, and
    the second call makes no dispatch call and leaves the state as the
    first one left it.  If the first dispatch is rejected, the first
    call changes nothing and the second call dispatches again. *)
Theorem process_event_twice (E : LogReceipt) (env1 env2 : event_env) (s : state) :
  let sig := EventProcessor.event_signature E in
  let r1 := EventProcessor.process_event E env1 s in
  let r2 := EventProcessor.process_event E env2 (final r1) in
  let both := (EventProcessor.process_event E env1 ;;
               EventProcessor.process_event E env2) s in
  (ledger_has sig s ->
   r1 = (Ok tt, s, [Log DEBUG (SkippingProcessed sig)])
   /\ r2 = (Ok tt, s, [Log DEBUG (SkippingProcessed sig)])
   /\ both = (Ok tt, s, [Log DEBUG (SkippingProcessed sig);
                         Log DEBUG (SkippingProcessed sig)]))
  /\ (is_dict (processed_events s) -> ~ ledger_has sig s ->
      dispatch_result E env1 s = Ok true ->
      outcome both = Ok tt
      /\ dispatch_calls (actions both) = 1%nat
      /\ ledger_commits (actions both) = 1%nat
      /\ ledger_has sig (final r1)
      /\ dispatch_calls (actions r2) = 0%nat
      /\ final r2 = final r1
      /\ final both = final r1)
  /\ (is_dict (processed_events s) -> ~ ledger_has sig s ->
      dispatch_result E env1 s = Ok false ->
      outcome both = Ok tt
      /\ final r1 = s
      /\ dispatch_calls (actions r1) = 1%nat
      /\ ledger_commits (actions r1) = 0%nat
      /\ dispatch_calls (actions r2) = 1%nat).
Proof.
  intros sig r1 r2 both.
  split; [|split].
  - intros Hin. assert (H1 : r1 = (Ok tt, s, [Log DEBUG (SkippingProcessed sig)]))
      by (apply process_event_seen; exact Hin).
    assert (H2 : r2 = (Ok tt, s, [Log DEBUG (SkippingProcessed sig)])).
    { subst r2. rewrite H1. unfold final; simpl. apply process_event_seen; exact Hin. }
    repeat split; trivial.
    subst both. rewrite (bind_ok _ _ s tt) by (fold r1; now rewrite H1).
    fold r1 r2. now rewrite H1, H2.
  - intros Hd Hnot Hacc.
    destruct (processed_events s) as [| | | | | |d] eqn:E0; try contradiction.
    rewrite dispatch_result_accepted in Hacc. injection Hacc as Hacc.
    assert (Hfresh : dict_contains sig d = false).
    { unfold ledger_has in Hnot. rewrite E0 in Hnot. simpl in Hnot.
      destruct (dict_contains sig d); [now destruct Hnot|reflexivity]. }
    destruct (process_event_dict E env1 s d E0) as (O1 & (d1 & Hd1 & K1) & D1 & C1 & _).
    fold r1 sig in O1, Hd1, K1, D1, C1. rewrite Hfresh in D1, C1. rewrite Hacc in C1.
    assert (Hin1 : dict_contains sig d1 = true).
    { rewrite K1, Hacc, String.eqb_refl. apply orb_true_r. }
    destruct (process_event_dict E env2 (final r1) d1 Hd1)
      as (O2 & _ & D2 & C2 & F2).
    fold r2 sig in O2, D2, C2, F2. rewrite Hin1 in D2, C2.
    subst both. rewrite (bind_ok _ _ s tt) by exact O1. fold r1 r2.
    rewrite outcome_triple, final_triple, !actions_triple.
    rewrite dispatch_calls_app, ledger_commits_app, D1, D2, C1, C2.
    repeat split; auto;
      try (apply F2; now left);
      try (unfold ledger_has; rewrite Hd1; simpl; now rewrite Hin1).
  - intros Hd Hnot Hacc.
    destruct (processed_events s) as [| | | | | |d] eqn:E0; try contradiction.
    rewrite dispatch_result_accepted in Hacc. injection Hacc as Hacc.
    assert (Hfresh : dict_contains sig d = false).
    { unfold ledger_has in Hnot. rewrite E0 in Hnot. simpl in Hnot.
      destruct (dict_contains sig d); [now destruct Hnot|reflexivity]. }
    destruct (process_event_dict E env1 s d E0) as (O1 & _ & D1 & C1 & F1).
    fold r1 sig in O1, D1, C1, F1. rewrite Hfresh in D1, C1. rewrite Hacc in C1.
    assert (Hs : final r1 = s) by (apply F1; now right).
    assert (E1 : processed_events (final r1) = PDict d) by (now rewrite Hs).
    destruct (process_event_dict E env2 (final r1) d E1) as (O2 & _ & D2 & _).
    fold r2 sig in O2, D2. rewrite Hfresh in D2.
    subst both. rewrite (bind_ok _ _ s tt) by exact O1. fold r1 r2.
    rewrite outcome_triple.
    repeat split; auto.
Qed.

Lemma process_event_twice_witness :
  dispatch_calls
    (actions ((EventProcessor.process_event sample_event env_200 ;;
               EventProcessor.process_event sample_event env_200) fresh_state)) = 1%nat
  /\ ledger_commits
       (actions ((EventProcessor.process_event sample_event env_200 ;;
                  EventProcessor.process_event sample_event env_200) fresh_state)) = 1%nat.
Proof.
  destruct (process_event_twice sample_event env_200 env_200 fresh_state) as (_ & H & _).
  destruct H as (_ & H1 & H2 & _).
  - exact I.
  - unfold ledger_has. simpl. discriminate.
  - reflexivity.
  - split; [exact H1 | exact H2].
Defined.

(** ** EventListener *)

Lemma gtb_false (a b : Z) : a <= b -> (a >? b) = false.
Proof. intros Hle. rewrite Z.gtb_ltb. apply Z.ltb_ge. exact Hle. Qed.

Lemma gtb_true (a b : Z) : a > b -> (a >? b) = true.
Proof. intros Hgt. rewrite Z.gtb_ltb. apply Z.ltb_lt. lia. Qed.

Lemma requested_ranges_app (t1 t2 : list effect) :
  requested_ranges (t1 ++ t2) = (requested_ranges t1 ++ requested_ranges t2)%list.
Proof.
  induction t1 as [|x t1 IH]; simpl; [reflexivity|].
  destruct x; simpl; now rewrite IH.
Qed.

Lemma for_events_cons (event : LogReceipt) (env : event_env)
      (rest : list (LogReceipt * event_env)) (s : state) :
  EventListener.for_events ((event, env) :: rest) s =
  match EventProcessor.process_event event env s with
  | (Ok _, s1, t1) =>
      match EventListener.for_events rest s1 with
      | (r, s2, t2) => (r, s2, (t1 ++ t2)%list)
      end
  | (Raise x, s1, t1) => (Raise x, s1, t1)
  end.
Proof. reflexivity. Qed.

(** The per-event loop touches neither the listener's attributes nor
    the chain client, whatever the ledger holds and however it ends. *)
Lemma for_events_frame (events : list (LogReceipt * event_env)) (s : state) :
  same_listener s (final (EventListener.for_events events s))
  /\ requested_ranges (actions (EventListener.for_events events s)) = [].
Proof.
  revert s. induction events as [|[event env] rest IH]; intros s.
  - split; [apply same_listener_refl | reflexivity].
  - rewrite for_events_cons.
    destruct (process_event_frame event env s) as [F R].
    destruct (EventProcessor.process_event event env s) as [[[u|x] s1] t1];
      rewrite final_triple in F; rewrite actions_triple in R.
    + destruct (IH s1) as [F' R'].
      destruct (EventListener.for_events rest s1) as [[r s2] t2].
      rewrite final_triple in *. rewrite actions_triple in *.
      split; [eapply same_listener_trans; eassumption|].
      now rewrite requested_ranges_app, R, R'.
    + rewrite final_triple, actions_triple. now split.
Qed.

(** One iteration of the loop, unfolded along its branches. *)
Lemma poll_cycle_run (env : cycle_env) (s : state) :
  EventListener.poll_cycle env s =
  match latest env with
  | None => (Ok tt, s, [Log WARNING NoLatestBlock; Sleep (poll_interval s)])
  | Some latest_block =>
      let target := latest_block - reorg_confirmation_depth s in
      let cur := current_block s in
      if cur >? target then
        (Ok tt, s, [Log INFO (WaitingForBlocks cur target); Sleep (poll_interval s)])
      else
        match fetch env with
        | Raise x =>
            (Ok tt, s,
             [Log INFO (Scanning cur target); GetLogs cur target;
              Log ERROR (LoopError x); Sleep (poll_interval s * 2);
              Sleep (poll_interval s)])
        | Ok [] =>
            (Ok tt, set_current_block (target + 1) s,
             [Log INFO (Scanning cur target); GetLogs cur target;
              Log INFO NoNewEvents; Sleep (poll_interval s)])
        | Ok events =>
            match EventListener.for_events events s with
            | (Ok _, s1, t1) =>
                (Ok tt, set_current_block (target + 1) s1,
                 Log INFO (Scanning cur target) :: GetLogs cur target
                 :: Log INFO (FoundEvents (Z.of_nat (List.length events)))
                 :: (t1 ++ [Sleep (poll_interval s1)])%list)
            | (Raise x, s1, t1) =>
                (Ok tt, s1,
                 Log INFO (Scanning cur target) :: GetLogs cur target
                 :: Log INFO (FoundEvents (Z.of_nat (List.length events)))
                 :: (t1 ++ [Log ERROR (LoopError x); Sleep (poll_interval s1 * 2);
                            Sleep (poll_interval s1)])%list)
            end
        end
  end.
Proof.
  unfold EventListener.poll_cycle, EventListener.try_body, try_except, bind, gets,
    logger, time_sleep, emit, modify, lift, ret.
  destruct (latest env) as [latest_block|]; [|reflexivity].
  cbv zeta. simpl.
  destruct (current_block s >? latest_block - reorg_confirmation_depth s);
    [reflexivity|].
  simpl. destruct (fetch env) as [[|ev evs]|x]; try reflexivity.
  destruct (EventListener.for_events (ev :: evs) s) as [[[u|x] s1] t1]; simpl.
  - rewrite app_nil_r. reflexivity.
  - rewrite <- app_assoc. reflexivity.
Qed.

(** On a dict ledger the per-event loop runs to its end; the ledger's
    keys afterwards are the old ones and the signatures whose dispatch
    was accepted. *)
Lemma for_events_dict (batch : list (LogReceipt * event_env)) (s : state)
      (d : list (string * pyval)) :
  processed_events s = PDict d ->
  outcome (EventListener.for_events batch s) = Ok tt
  /\ exists d', processed_events (final (EventListener.for_events batch s)) = PDict d'
                /\ forall k, dict_contains k d' = dict_contains k d || accepted_in k batch.
Proof.
  revert s d. induction batch as [|[event env] rest IH]; intros s d Hd.
  - split; [reflexivity|]. exists d. split; [exact Hd|].
    intros k. simpl. now rewrite orb_false_r.
  - rewrite for_events_cons.
    destruct (process_event_dict event env s d Hd) as (O1 & (d1 & Hd1 & K1) & _).
    destruct (EventProcessor.process_event event env s) as [[r1 s1] t1].
    rewrite outcome_triple in O1. rewrite final_triple in Hd1. subst r1.
    destruct (IH s1 d1 Hd1) as (O2 & d2 & Hd2 & K2).
    destruct (EventListener.for_events rest s1) as [[r2 s2] t2].
    rewrite outcome_triple in *. rewrite final_triple in *.
    split; [exact O2|]. exists d2. split; [exact Hd2|].
    intros k. rewrite K2, K1. unfold accepted_in. simpl. now rewrite orb_assoc.
Qed.

Lemma accepted_in_spec (k : string) (batch : list (LogReceipt * event_env)) (s : state) :
  accepted_in k batch = true <->
  exists event env, In (event, env) batch
                    /\ EventProcessor.event_signature event = k
                    /\ dispatch_result event env s = Ok true.
Proof.
  unfold accepted_in. rewrite existsb_exists. split.
  - intros [[event env] [Hin H]]. simpl in H.
    apply andb_true_iff in H. destruct H as [H1 H2].
    apply String.eqb_eq in H1. exists event, env.
    rewrite dispatch_result_accepted, H2. auto.
  - intros (event & env & Hin & Hk & Hacc).
    rewrite dispatch_result_accepted in Hacc. injection Hacc as Hacc.
    exists (event, env). split; [exact Hin|]. simpl.
    now rewrite Hacc, <- Hk, String.eqb_refl.
Qed.

Lemma NoDup_map_In_eq {A B : Type} (f : A -> B) (l : list A) (x y : A) :
  NoDup (map f l) -> In x l -> In y l -> f x = f y -> x = y.
Proof.
  induction l as [|a l IH]; simpl; [tauto|].
  intros Hnd Hx Hy Hf. inversion Hnd as [|? ? Hnotin Hnd']; subst.
  destruct Hx as [->|Hx], Hy as [->|Hy]; auto.
  - exfalso. apply Hnotin. rewrite Hf. now apply in_map.
  - exfalso. apply Hnotin. rewrite <- Hf. now apply in_map.
Qed.

Lemma poll_cycle_ok (env : cycle_env) (s : state) :
  outcome (EventListener.poll_cycle env s) = Ok tt.
Proof.
  rewrite poll_cycle_run.
  destruct (latest env) as [h|]; [|reflexivity]. cbv zeta.
  destruct (current_block s >? h - reorg_confirmation_depth s); [reflexivity|].
  destruct (fetch env) as [[|ev evs]|x]; try reflexivity.
  now destruct (EventListener.for_events (ev :: evs) s) as [[[u|x] s1] t1].
Qed.

(** The ranges one iteration asks the chain client for. *)
Lemma poll_cycle_ranges (env : cycle_env) (s : state) :
  requested_ranges (actions (EventListener.poll_cycle env s)) =
  match latest env with
  | None => []
  | Some h =>
      if current_block s >? h - reorg_confirmation_depth s then []
      else [(current_block s, h - reorg_confirmation_depth s)]
  end.
Proof.
  rewrite poll_cycle_run.
  destruct (latest env) as [h|]; [|reflexivity]. cbv zeta.
  destruct (current_block s >? h - reorg_confirmation_depth s); [reflexivity|].
  destruct (fetch env) as [[|ev evs]|x]; try reflexivity.
  destruct (for_events_frame (ev :: evs) s) as [_ R].
  destruct (EventListener.for_events (ev :: evs) s) as [[[u|x] s1] t1];
    rewrite actions_triple in *; simpl; now rewrite requested_ranges_app, R.
Qed.

(** One iteration keeps the polling interval and the confirmation
    depth, and never moves the cursor backwards. *)
Lemma poll_cycle_listener (env : cycle_env) (s : state) :
  let s' := final (EventListener.poll_cycle env s) in
  poll_interval s' = poll_interval s
  /\ reorg_confirmation_depth s' = reorg_confirmation_depth s
  /\ current_block s <= current_block s'.
Proof.
  cbv zeta. rewrite poll_cycle_run.
  destruct (latest env) as [h|]; [|rewrite final_triple; repeat split; lia]. cbv zeta.
  destruct (current_block s >? h - reorg_confirmation_depth s) eqn:G;
    [rewrite final_triple; repeat split; lia|].
  assert (current_block s <= h - reorg_confirmation_depth s)
    by (destruct (Z.gtb_spec (current_block s) (h - reorg_confirmation_depth s));
        [discriminate | assumption]).
  destruct (fetch env) as [[|ev evs]|x]; try (rewrite final_triple; simpl; repeat split; lia).
  destruct (for_events_frame (ev :: evs) s) as [(F1 & F2 & F3) _].
  destruct (EventListener.for_events (ev :: evs) s) as [[[u|x] s1] t1];
    rewrite final_triple in *; simpl; repeat split; auto; lia.
Qed.

Lemma cycles_cons (env : cycle_env) (rest : list cycle_env) (s : state) :
  EventListener.cycles (env :: rest) s =
  let s1 := final (EventListener.poll_cycle env s) in
  (outcome (EventListener.cycles rest s1), final (EventListener.cycles rest s1),
   (actions (EventListener.poll_cycle env s) ++ actions (EventListener.cycles rest s1))%list).
Proof.
  change (EventListener.cycles (env :: rest))
    with (bind (EventListener.poll_cycle env) (fun _ => EventListener.cycles rest)).
  now rewrite (bind_ok _ _ s tt) by apply poll_cycle_ok.
Qed.

Lemma cycles_app (envs1 envs2 : list cycle_env) (s : state) :
  final (EventListener.cycles (envs1 ++ envs2) s) =
  final (EventListener.cycles envs2 (final (EventListener.cycles envs1 s))).
Proof.
  revert s. induction envs1 as [|env rest IH]; intros s; [reflexivity|].
  simpl app. rewrite !cycles_cons. cbv zeta. rewrite !final_triple. apply IH.
Qed.

Lemma cycles_listener (envs : list cycle_env) (s : state) :
  let s' := final (EventListener.cycles envs s) in
  poll_interval s' = poll_interval s
  /\ reorg_confirmation_depth s' = reorg_confirmation_depth s
  /\ current_block s <= current_block s'.
Proof.
  cbv zeta. revert s. induction envs as [|env rest IH]; intros s.
  - unfold final; simpl. repeat split; lia.
  - rewrite cycles_cons. cbv zeta. rewrite final_triple.
    destruct (poll_cycle_listener env s) as (P1 & P2 & P3).
    destruct (IH (final (EventListener.poll_cycle env s))) as (Q1 & Q2 & Q3).
    repeat split; try congruence. lia.
Qed.

Lemma start_final (envs : list cycle_env) (s : state) :
  final (EventListener.start envs s) = final (EventListener.cycles envs s)
  /\ actions (EventListener.start envs s) =
     Log INFO (StartingListener (current_block s)) :: actions (EventListener.cycles envs s).
Proof.
  unfold EventListener.start, bind, gets, logger, emit. simpl.
  now destruct (EventListener.cycles envs s) as [[r s'] t].
Qed.

(** C2: in every iteration of the polling loop, after any number of
    earlier iterations, a range requested from the chain client starts
    at the cursor and has an upper bound that does not exceed H - D,
    where H is the chain height read in that iteration and D is the
    confirmation depth the listener was started with. *)
Theorem window_upper_bound (envs : list cycle_env) (env : cycle_env) (s : state)
        (a b : Z) :
  let s_k := final (EventListener.start envs s) in
  In (a, b) (requested_ranges (actions (EventListener.poll_cycle env s_k))) ->
  exists H,
    latest env = Some H
    /\ b <= H - reorg_confirmation_depth s
    /\ a = current_block s_k.
Proof.
  intros s_k Hin. subst s_k.
  destruct (start_final envs s) as [Hs _]. rewrite Hs in *.
  destruct (cycles_listener envs s) as (_ & D & _).
  rewrite poll_cycle_ranges in Hin.
  destruct (latest env) as [h|]; [|now simpl in Hin].
  destruct (current_block _ >? _); [now simpl in Hin|].
  destruct Hin as [Heq|[]]. injection Heq as <- <-.
  exists h. rewrite D. repeat split. lia.
Qed.

Lemma window_upper_bound_witness :
  In (96, 115)
     (requested_ranges
        (actions (EventListener.poll_cycle (mkCycleEnv (Some 120) (Ok []))
                    (final (EventListener.start
                              [mkCycleEnv (Some 100) (Ok [(sample_event, env_200)])]
                              fresh_state)))))
  /\ exists H, latest (mkCycleEnv (Some 120) (Ok [])) = Some H
               /\ 115 <= H - reorg_confirmation_depth fresh_state
               /\ 96 = current_block
                         (final (EventListener.start
                                   [mkCycleEnv (Some 100) (Ok [(sample_event, env_200)])]
                                   fresh_state)).
Proof.
  assert (Hin : In (96, 115)
     (requested_ranges
        (actions (EventListener.poll_cycle (mkCycleEnv (Some 120) (Ok []))
                    (final (EventListener.start
                              [mkCycleEnv (Some 100) (Ok [(sample_event, env_200)])]
                              fresh_state))))))
    by (simpl; now left).
  split; [exact Hin|].
  exact (window_upper_bound _ _ fresh_state 96 115 Hin).
Defined.

(** C3: the scan cursor never decreases.  Its value after any number of
    iterations of the loop is at least its value at the start, and its
    value after further iterations is at least its value before them. *)
Theorem cursor_non_decreasing (envs1 envs2 : list cycle_env) (s : state) :
  current_block s <= current_block (final (EventListener.start envs1 s))
  /\ current_block (final (EventListener.start envs1 s))
     <= current_block (final (EventListener.start (envs1 ++ envs2) s)).
Proof.
  destruct (start_final envs1 s) as [-> _].
  destruct (start_final (envs1 ++ envs2) s) as [-> _].
  rewrite cycles_app. split.
  - apply cycles_listener.
  - apply cycles_listener.
Qed.

(** C6: in an iteration that read chain height H, with
    safe = H - depth: if the cursor exceeds safe, no range is requested
    and the state is unchanged; otherwise exactly the range
    [cursor, safe] is requested and, when the fetch returns the events
    and the ledger is a dict, the cursor becomes safe + 1 whatever the
    dispatch outcomes of the events are.  With height 100, depth 5 and
    cursor 80 the range is [80, 95] and the cursor becomes 96. *)
Theorem window_computation (env : cycle_env) (s : state) (H : Z) :
  latest env = Some H ->
  let safe := H - reorg_confirmation_depth s in
  let r := EventListener.poll_cycle env s in
  (current_block s > safe ->
   requested_ranges (actions r) = [] /\ final r = s)
  /\ (current_block s <= safe ->
      requested_ranges (actions r) = [(current_block s, safe)]
      /\ forall events, fetch env = Ok events -> is_dict (processed_events s) ->
                        current_block (final r) = safe + 1)
  /\ (forall s0 events,
         is_dict (processed_events s0) ->
         let r0 := EventListener.poll_cycle (mkCycleEnv (Some 100) (Ok events))
                     (EventListener.__init__ 80 s0) in
         requested_ranges (actions r0) = [(80, 95)]
         /\ current_block (final r0) = 96).
Proof.
  intros L safe r.
  assert (Adv : forall s1 h events,
             is_dict (processed_events s1) ->
             current_block s1 <= h - reorg_confirmation_depth s1 ->
             current_block (final (EventListener.poll_cycle (mkCycleEnv (Some h) (Ok events)) s1))
             = h - reorg_confirmation_depth s1 + 1).
  { intros s1 h events Hd Hle. rewrite poll_cycle_run. cbn [latest fetch]. cbv zeta.
    rewrite gtb_false by exact Hle.
    destruct events as [|ev evs]; [reflexivity|].
    destruct (processed_events s1) as [| | | | | |d] eqn:E; try contradiction.
    destruct (for_events_dict (ev :: evs) s1 d E) as [O _].
    destruct (EventListener.for_events (ev :: evs) s1) as [[r1 s2] t1].
    rewrite outcome_triple in O. subst r1. reflexivity. }
  split; [|split].
  - intros Hgt. subst r. rewrite poll_cycle_ranges, poll_cycle_run, L. cbv zeta.
    fold safe.
    replace (current_block s >? safe) with true by (symmetry; apply gtb_true; lia).
    now rewrite final_triple.
  - intros Hle. subst r. rewrite poll_cycle_ranges, L. fold safe.
    replace (current_block s >? safe) with false
      by (symmetry; apply gtb_false; lia).
    split; [reflexivity|]. intros events Hf Hd.
    destruct env as [l f]. simpl in L, Hf. subst l f.
    now apply Adv.
  - intros s0 events Hd r0. subst r0. split.
    + now rewrite poll_cycle_ranges.
    + rewrite Adv; [reflexivity | exact Hd | simpl; lia].
Qed.

Lemma window_computation_witness :
  requested_ranges
    (actions (EventListener.poll_cycle
                (mkCycleEnv (Some 100) (Ok [(sample_event, env_500)])) fresh_state))
  = [(80, 95)]
  /\ current_block
       (final (EventListener.poll_cycle
                 (mkCycleEnv (Some 100) (Ok [(sample_event, env_500)])) fresh_state))
     = 96.
Proof.
  destruct (window_computation (mkCycleEnv (Some 100) (Ok [(sample_event, env_500)]))
              fresh_state 100 eq_refl) as (_ & H & _).
  destruct H as [H1 H2]; [simpl; lia|].
  split; [exact H1|]. exact (H2 _ eq_refl I).
Defined.

(** C9: when the log query of an iteration raises, the iteration still
    ends normally: the error is logged, the loop sleeps twice the
    polling interval and then the usual interval, and the whole state,
    the cursor included, is as before.  So the next iteration starts its
    range at the same block, and under the same chain height it requests
    the same range again. *)
Theorem fetch_failure_retried (env : cycle_env) (s : state) (H : Z) (x : exn) :
  latest env = Some H ->
  current_block s <= H - reorg_confirmation_depth s ->
  fetch env = Raise x ->
  let safe := H - reorg_confirmation_depth s in
  let r := EventListener.poll_cycle env s in
  r = (Ok tt, s,
       [Log INFO (Scanning (current_block s) safe); GetLogs (current_block s) safe;
        Log ERROR (LoopError x); Sleep (poll_interval s * 2); Sleep (poll_interval s)])
  /\ (forall env', latest env' = Some H ->
        requested_ranges (actions (EventListener.poll_cycle env' (final r)))
        = [(current_block s, safe)])
  /\ (forall env' H', latest env' = Some H' ->
        current_block s <= H' - reorg_confirmation_depth s ->
        requested_ranges (actions (EventListener.poll_cycle env' (final r)))
        = [(current_block s, H' - reorg_confirmation_depth s)]).
Proof.
  intros L Hle Hf safe r.
  assert (Hr : r = (Ok tt, s,
       [Log INFO (Scanning (current_block s) safe); GetLogs (current_block s) safe;
        Log ERROR (LoopError x); Sleep (poll_interval s * 2); Sleep (poll_interval s)])).
  { subst r. rewrite poll_cycle_run, L. cbv zeta. fold safe.
    replace (current_block s >? safe) with false
      by (symmetry; apply gtb_false; lia).
    now rewrite Hf. }
  assert (Next : forall env' H', latest env' = Some H' ->
        current_block s <= H' - reorg_confirmation_depth s ->
        requested_ranges (actions (EventListener.poll_cycle env' (final r)))
        = [(current_block s, H' - reorg_confirmation_depth s)]).
  { intros env' H' L' Hle'. rewrite Hr, final_triple, poll_cycle_ranges, L'.
    replace (current_block s >? H' - reorg_confirmation_depth s) with false
      by (symmetry; apply gtb_false; lia).
    reflexivity. }
  split; [exact Hr|]. split; [|exact Next].
  intros env' L'. now apply Next.
Qed.

Lemma fetch_failure_retried_witness :
  EventListener.poll_cycle (mkCycleEnv (Some 100) (Raise ChainClientError)) fresh_state =
  (Ok tt, fresh_state,
   [Log INFO (Scanning 80 95); GetLogs 80 95;
    Log ERROR (LoopError ChainClientError); Sleep 30; Sleep 15]).
Proof.
  assert (Hle : current_block fresh_state <= 100 - reorg_confirmation_depth fresh_state)
    by (simpl; lia).
  exact (proj1 (fetch_failure_retried (mkCycleEnv (Some 100) (Raise ChainClientError))
                  fresh_state 100 ChainClientError eq_refl Hle eq_refl)).
Defined.

(** C7: for a batch processed on a dict ledger, the per-event loop
    runs to its end without raising.  Afterwards the ledger contains a
    signature exactly when it contained it before or the batch holds an
    event with that signature whose dispatch succeeded.  When the
    signatures of the batch are pairwise distinct and none is in the
    ledger beforehand, an event of the batch is committed exactly when
    its dispatch succeeded.  An event whose dispatch fails leaves the
    state unchanged. *)
Theorem batch_partial_failure (batch : list (LogReceipt * event_env)) (s : state) :
  is_dict (processed_events s) ->
  let sig_of := fun p : LogReceipt * event_env => EventProcessor.event_signature (fst p) in
  let r := EventListener.for_events batch s in
  outcome r = Ok tt
  /\ is_dict (processed_events (final r))
  /\ (forall sig,
         ledger_has sig (final r) <->
         ledger_has sig s
         \/ exists event env, In (event, env) batch
                              /\ EventProcessor.event_signature event = sig
                              /\ dispatch_result event env s = Ok true)
  /\ (NoDup (map sig_of batch) ->
      (forall p, In p batch -> ~ ledger_has (sig_of p) s) ->
      forall event env, In (event, env) batch ->
        (ledger_has (EventProcessor.event_signature event) (final r)
         <-> dispatch_result event env s = Ok true))
  /\ (forall event env s',
         is_dict (processed_events s') ->
         dispatch_result event env s' = Ok false ->
         EventProcessor.process_event event env s' =
         (Ok tt, s', actions (EventProcessor.process_event event env s'))).
Proof.
  intros Hd sig_of r.
  destruct (processed_events s) as [| | | | | |d] eqn:E; try contradiction.
  destruct (for_events_dict batch s d E) as (O & d' & Hd' & K). fold r in O, Hd'.
  assert (Iff : forall sig,
             ledger_has sig (final r) <->
             ledger_has sig s
             \/ exists event env, In (event, env) batch
                                  /\ EventProcessor.event_signature event = sig
                                  /\ dispatch_result event env s = Ok true).
  { intros sig. unfold ledger_has. rewrite Hd', E. simpl. rewrite K.
    rewrite <- (accepted_in_spec sig batch s).
    destruct (dict_contains sig d), (accepted_in sig batch); simpl; split;
      try tauto; try (intros [H|H]; congruence); intros H; auto. }
  split; [exact O|]. split; [now rewrite Hd'|]. split; [exact Iff|]. split.
  - intros Hnd Hfresh event env Hin. rewrite Iff. split.
    + intros [Hold|(event' & env' & Hin' & Hsig & Hacc)].
      * exfalso. exact (Hfresh (event, env) Hin Hold).
      * assert (Heq : (event', env') = (event, env))
          by (apply (NoDup_map_In_eq sig_of batch); auto).
        injection Heq as -> ->. exact Hacc.
    + intros Hacc. right. now exists event, env.
  - intros event env s' Hs' Hrej.
    destruct (processed_events s') as [| | | | | |d0] eqn:E0; try contradiction.
    rewrite dispatch_result_accepted in Hrej. injection Hrej as Hrej.
    destruct (process_event_dict event env s' d0 E0) as (O1 & _ & _ & _ & F1).
    specialize (F1 (or_intror Hrej)).
    destruct (EventProcessor.process_event event env s') as [[r1 s1] t1].
    rewrite outcome_triple in O1. rewrite final_triple in F1.
    rewrite actions_triple. now subst.
Qed.

Lemma batch_partial_failure_witness :
  outcome (EventListener.for_events sample_batch fresh_state) = Ok tt
  /\ ledger_has "0xab0c-0" (final (EventListener.for_events sample_batch fresh_state))
  /\ ~ ledger_has "0xab0c-1" (final (EventListener.for_events sample_batch fresh_state))
  /\ ledger_has "0x11-0" (final (EventListener.for_events sample_batch fresh_state)).
Proof.
  destruct (batch_partial_failure sample_batch fresh_state I) as (O & _ & _ & H & _).
  assert (Hnd : NoDup (map (fun p : LogReceipt * event_env =>
                              EventProcessor.event_signature (fst p)) sample_batch)).
  { simpl. repeat constructor; simpl; intuition discriminate. }
  assert (Hfresh : forall p, In p sample_batch ->
             ~ ledger_has (EventProcessor.event_signature (fst p)) fresh_state).
  { intros p _. unfold ledger_has. simpl. discriminate. }
  specialize (H Hnd Hfresh).
  split; [exact O|]. split; [|split].
  - apply (H batch_event0 env_200); [simpl; auto | reflexivity].
  - intros Hc. apply (H batch_event1 env_500) in Hc; [discriminate | simpl; auto].
  - apply (H batch_event2 env_200); [simpl; auto | reflexivity].
Defined.

(** * Further properties of the pipeline *)

(** ** The ledger as a store *)

Lemma dict_get_contains (k : string) (d : list (string * pyval)) :
  dict_contains k d = match dict_get k d with Some _ => true | None => false end.
Proof.
  induction d as [|[k' v'] d IH]; simpl; [reflexivity|].
  now destruct (String.eqb k k').
Qed.

Lemma dict_get_setitem_same (k : string) (v : pyval) (d : list (string * pyval)) :
  dict_get k (dict_setitem k v d) = Some v.
Proof.
  induction d as [|[k' v'] d IH]; simpl.
  - now rewrite String.eqb_refl.
  - destruct (String.eqb k k') eqn:E; simpl; rewrite E; auto.
Qed.

Lemma dict_get_setitem_other (k k0 : string) (v : pyval) (d : list (string * pyval)) :
  k0 <> k -> dict_get k0 (dict_setitem k v d) = dict_get k0 d.
Proof.
  intros Hne. induction d as [|[k' v'] d IH]; simpl.
  - apply String.eqb_neq in Hne. now rewrite Hne.
  - destruct (String.eqb k k') eqn:E; simpl.
    + apply String.eqb_eq in E; subst k'.
      apply String.eqb_neq in Hne. now rewrite Hne.
    + now rewrite IH.
Qed.

Lemma entries_kept_refl (d : list (string * pyval)) : entries_kept d d.
Proof. now intros k v. Qed.

Lemma entries_kept_trans (d1 d2 d3 : list (string * pyval)) :
  entries_kept d1 d2 -> entries_kept d2 d3 -> entries_kept d1 d3.
Proof. unfold entries_kept. auto. Qed.

Lemma entries_kept_setitem_fresh (k : string) (v : pyval) (d : list (string * pyval)) :
  dict_contains k d = false -> entries_kept d (dict_setitem k v d).
Proof.
  intros Hfresh k0 v0 Hget.
  rewrite dict_get_setitem_other; [exact Hget|].
  intros ->. rewrite dict_get_contains, Hget in Hfresh. discriminate.
Qed.

(** X1 (durability): a commit on a dict ledger whose write succeeds,
    followed by a start of [StateDB] on the file it left, gives back
    the very ledger that was in memory: it holds the committed record
    under the signature and every other entry as before. *)
Theorem commit_then_reload (s : state) (d : list (string * pyval))
        (sig : string) (data : pyval) (t : float) :
  processed_events s = PDict d ->
  let committed := final (StateDB.mark_event_as_processed sig data t SaveOk s) in
  let reloaded := StateDB.__init__ (startup_state (state_file committed)) in
  outcome reloaded = Ok tt
  /\ processed_events (final reloaded) = processed_events committed
  /\ exists d',
      processed_events (final reloaded) = PDict d'
      /\ dict_get sig d' = Some (event_record data t)
      /\ forall k, k <> sig -> dict_get k d' = dict_get k d.
Proof.
  intros Hd committed reloaded. subst reloaded committed.
  rewrite (mark_event_dict s sig data t SaveOk d Hd). rewrite final_triple.
  unfold outcome, final, StateDB.__init__, StateDB._load_state, bind, gets.
  simpl.
  split; [reflexivity|]. split; [reflexivity|].
  eexists. split; [reflexivity|]. split.
  - apply dict_get_setitem_same.
  - intros k Hk. now apply dict_get_setitem_other.
Qed.

Lemma commit_then_reload_witness :
  processed_events
    (final (StateDB.__init__
              (startup_state
                 (state_file
                    (final (StateDB.mark_event_as_processed "0xab0c-2" (PInt 1)
                              1.5%float SaveOk fresh_state))))))
  = PDict [("0xab0c-2", event_record (PInt 1) 1.5%float)].
Proof.
  destruct (commit_then_reload fresh_state [] "0xab0c-2" (PInt 1) 1.5%float eq_refl)
    as (_ & H & _).
  rewrite H. reflexivity.
Defined.

(** ** Event signatures *)

Lemma byte_of_hex_digits (b : Byte.byte) :
  byte_of_hex (hex_digit (N.div (Byte.to_N b) 16)) (hex_digit (N.modulo (Byte.to_N b) 16))
  = Some b.
Proof. destruct b; reflexivity. Qed.

Lemma hex_digit_of_byte_not_dash (b : Byte.byte) :
  hex_digit (N.div (Byte.to_N b) 16) <> "-"%char.
Proof. destruct b; discriminate. Qed.

(** The digits of a hash end where the first dash stands. *)
Lemma hex_of_bytes_dash_inj (bs bs' : list Byte.byte) (r r' : string) :
  hex_of_bytes bs ++ String "-" r = hex_of_bytes bs' ++ String "-" r' ->
  bs = bs' /\ r = r'.
Proof.
  revert bs'. induction bs as [|b bs IH]; intros [|b' bs']; simpl; intros Heq.
  - injection Heq as ->. now split.
  - injection Heq as Hc _. symmetry in Hc. now apply hex_digit_of_byte_not_dash in Hc.
  - injection Heq as Hc _. now apply hex_digit_of_byte_not_dash in Hc.
  - injection Heq as Hhi Hlo Hrest.
    assert (Hb : Some b = Some b').
    { rewrite <- (byte_of_hex_digits b), <- (byte_of_hex_digits b'). now rewrite Hhi, Hlo. }
    injection Hb as ->. destruct (IH _ Hrest) as [-> ->]. now split.
Qed.

Lemma str_of_int_inj (n m : Z) : str_of_int n = str_of_int m -> n = m.
Proof.
  unfold str_of_int. intros Heq.
  assert (Hisi : forall z, NilZero.int_of_string (NilZero.string_of_int (Z.to_int z))
                           = Some (Z.to_int z)).
  { intros z. apply NilZero.isi; destruct z; simpl; try discriminate;
      intros [= H]; now apply DecimalPos.Unsigned.to_uint_nonnil in H. }
  apply DecimalZ.to_int_inj.
  assert (Hs : Some (Z.to_int n) = Some (Z.to_int m))
    by (rewrite <- !Hisi; now rewrite Heq).
  now injection Hs.
Qed.

(** X2: the signature identifies the log occurrence.  Two events get
    the same signature exactly when they have the same transaction hash
    and the same log index; so two logs of one transaction at different
    positions never collide in the ledger. *)
Theorem event_signature_injective (e1 e2 : LogReceipt) :
  EventProcessor.event_signature e1 = EventProcessor.event_signature e2 <->
  transactionHash e1 = transactionHash e2 /\ logIndex e1 = logIndex e2.
Proof.
  split.
  - unfold EventProcessor.event_signature, HexBytes_hex. simpl. intros Heq.
    injection Heq as Heq. apply hex_of_bytes_dash_inj in Heq.
    destruct Heq as [Hh Hi]. split; [exact Hh|]. now apply str_of_int_inj.
  - unfold EventProcessor.event_signature. now intros [-> ->].
Qed.

(** ** The ledger across a run *)

(** [process_event] on a dict ledger, branch by branch. *)
Lemma process_event_dict_cases (event : LogReceipt) (env : event_env) (s : state)
      (d : list (string * pyval)) :
  processed_events s = PDict d ->
  let sig := EventProcessor.event_signature event in
  let data := EventProcessor.processed_data event in
  let payload := PDict [("eventType", PStr "TokensLocked"); ("payload", data)] in
  (dict_contains sig d = true
   /\ EventProcessor.process_event event env s =
      (Ok tt, s, [Log DEBUG (SkippingProcessed sig)]))
  \/ (dict_contains sig d = false /\ accepted (http env) = false
      /\ EventProcessor.process_event event env s =
         (Ok tt, s,
          [Log INFO (ProcessingNew sig); Log INFO (Relaying payload); Post payload;
           Log ERROR RelayFailed; Log WARNING (RelayingFailedRetry sig)]))
  \/ (dict_contains sig d = false /\ accepted (http env) = true
      /\ exists j s' t_save,
          EventProcessor.process_event event env s =
          (Ok tt, s',
           ([Log INFO (ProcessingNew sig); Log INFO (Relaying payload); Post payload;
             Log INFO (RelaySucceeded j)] ++ t_save ++ [Log INFO (EventMarked sig)])%list)
          /\ processed_events s' =
             PDict (dict_setitem sig (event_record data (now env)) d)
          /\ same_listener s s'
          /\ (t_save = [] \/ t_save = [Log ERROR SaveFailed])
          /\ state_file s' =
             match save env with
             | SaveOk => FileJSON (PDict (dict_setitem sig (event_record data (now env)) d))
             | SaveOpenError => state_file s
             | SaveWriteError => FileNotJSON
             end).
Proof.
  intros Hd sig data payload.
  rewrite process_event_run. cbv zeta. fold sig data payload.
  rewrite Hd. simpl py_contains.
  destruct (dict_contains sig d) eqn:Hin; [left; now split|right].
  destruct (accepted (http env)) eqn:Hacc.
  - right. repeat split.
    destruct (relay_log_accepted _ Hacc) as [j ->].
    rewrite (mark_event_dict s _ _ _ _ d Hd). fold (event_record data (now env)).
    exists j.
    destruct (save env).
    + eexists. exists []. repeat split. now left.
    + eexists. exists [Log ERROR SaveFailed]. repeat split. now right.
    + eexists. exists [Log ERROR SaveFailed]. repeat split. now right.
  - left. repeat split. now rewrite (relay_log_rejected _ Hacc).
Qed.

Lemma commits_of_app (sig : string) (t1 t2 : list effect) :
  commits_of sig (t1 ++ t2) = (commits_of sig t1 + commits_of sig t2)%nat.
Proof.
  induction t1 as [|x t1 IH]; simpl; [reflexivity|].
  destruct x as [[] []| | |]; simpl; rewrite ?IH; try reflexivity.
  now rewrite Nat.add_assoc.
Qed.

(** What an iteration does to the ledger, to the state file and by way
    of dispatches and commits is what the per-event loop does on the
    batch the iteration hands to it. *)
Lemma poll_cycle_ledger (env : cycle_env) (s : state) :
  let r := EventListener.poll_cycle env s in
  let b := EventListener.for_events (batch_of env s) s in
  processed_events (final r) = processed_events (final b)
  /\ state_file (final r) = state_file (final b)
  /\ (forall sig, commits_of sig (actions r) = commits_of sig (actions b))
  /\ dispatch_calls (actions r) = dispatch_calls (actions b).
Proof.
  cbv zeta. rewrite poll_cycle_run. unfold batch_of.
  destruct (latest env) as [h|]; [|now repeat split]. cbv zeta.
  destruct (current_block s >? h - reorg_confirmation_depth s); [now repeat split|].
  destruct (fetch env) as [[|ev evs]|x]; try (now repeat split).
  destruct (EventListener.for_events (ev :: evs) s) as [[[u|x] s1] t1];
    rewrite !final_triple, !actions_triple;
    (split; [reflexivity|]; split; [reflexivity|]; split;
     [ intros sig; simpl; rewrite commits_of_app; simpl; lia
     | unfold dispatch_calls; simpl; rewrite filter_app, length_app; simpl; lia ]).
Qed.

(** One event on a dict ledger: the ledger stays a dict, keeps every
    entry, and gains the signature exactly when a commit is logged. *)
Lemma process_event_ledger_step (event : LogReceipt) (env : event_env) (s : state)
      (d : list (string * pyval)) (sig0 : string) :
  processed_events s = PDict d ->
  let r := EventProcessor.process_event event env s in
  outcome r = Ok tt
  /\ exists d', processed_events (final r) = PDict d'
                /\ entries_kept d d'
                /\ (commits_of sig0 (actions r) + Nat.b2n (dict_contains sig0 d)
                    = Nat.b2n (dict_contains sig0 d'))%nat.
Proof.
  intros Hd r. subst r.
  destruct (process_event_dict_cases event env s d Hd)
    as [(Hin & ->)|[(Hin & Hacc & ->)|(Hin & Hacc & j & s' & ts & -> & Hd' & _ & Hts & _)]].
  - rewrite outcome_triple, final_triple, actions_triple. split; [reflexivity|].
    exists d. split; [exact Hd|]. split; [apply entries_kept_refl|reflexivity].
  - rewrite outcome_triple, final_triple, actions_triple. split; [reflexivity|].
    exists d. split; [exact Hd|]. split; [apply entries_kept_refl|reflexivity].
  - rewrite outcome_triple, final_triple, actions_triple. split; [reflexivity|].
    eexists. split; [exact Hd'|]. split; [now apply entries_kept_setitem_fresh|].
    rewrite dict_contains_setitem.
    assert (Hts0 : commits_of sig0 ts = 0%nat) by (destruct Hts as [->| ->]; reflexivity).
    rewrite !commits_of_app, Hts0. cbn [commits_of].
    rewrite (String.eqb_sym sig0).
    destruct (String.eqb (EventProcessor.event_signature event) sig0) eqn:E.
    + apply String.eqb_eq in E. rewrite <- E, Hin. reflexivity.
    + simpl. lia.
Qed.

Lemma for_events_ledger_step (batch : list (LogReceipt * event_env)) (s : state)
      (d : list (string * pyval)) (sig0 : string) :
  processed_events s = PDict d ->
  let r := EventListener.for_events batch s in
  exists d', processed_events (final r) = PDict d'
             /\ entries_kept d d'
             /\ (commits_of sig0 (actions r) + Nat.b2n (dict_contains sig0 d)
                 = Nat.b2n (dict_contains sig0 d'))%nat.
Proof.
  cbv zeta. revert s d. induction batch as [|[event env] rest IH]; intros s d Hd.
  - exists d. repeat split; [exact Hd | apply entries_kept_refl].
  - rewrite for_events_cons.
    destruct (process_event_ledger_step event env s d sig0 Hd) as (O1 & d1 & Hd1 & K1 & C1).
    destruct (EventProcessor.process_event event env s) as [[r1 s1] t1].
    rewrite outcome_triple in O1. rewrite final_triple in Hd1.
    rewrite actions_triple in C1. subst r1.
    destruct (IH s1 d1 Hd1) as (d2 & Hd2 & K2 & C2).
    destruct (EventListener.for_events rest s1) as [[r2 s2] t2].
    rewrite final_triple in *. rewrite actions_triple in *.
    exists d2. split; [exact Hd2|]. split; [eapply entries_kept_trans; eassumption|].
    rewrite commits_of_app. lia.
Qed.

Lemma cycles_ledger_step (envs : list cycle_env) (s : state)
      (d : list (string * pyval)) (sig0 : string) :
  processed_events s = PDict d ->
  let r := EventListener.cycles envs s in
  exists d', processed_events (final r) = PDict d'
             /\ entries_kept d d'
             /\ (commits_of sig0 (actions r) + Nat.b2n (dict_contains sig0 d)
                 = Nat.b2n (dict_contains sig0 d'))%nat.
Proof.
  cbv zeta. revert s d. induction envs as [|env rest IH]; intros s d Hd.
  - exists d. repeat split; [exact Hd | apply entries_kept_refl].
  - rewrite cycles_cons. cbv zeta. rewrite final_triple, actions_triple.
    destruct (poll_cycle_ledger env s) as (P1 & _ & P3 & _).
    destruct (for_events_ledger_step (batch_of env s) s d sig0 Hd) as (d1 & Hd1 & K1 & C1).
    rewrite <- P1 in Hd1. rewrite <- P3 in C1.
    destruct (IH _ d1 Hd1) as (d2 & Hd2 & K2 & C2).
    exists d2. split; [exact Hd2|]. split; [eapply entries_kept_trans; eassumption|].
    rewrite commits_of_app. lia.
Qed.

(** X3: the ledger is append-only over a run.  Starting from a dict
    ledger, after any number of iterations of the loop the ledger is
    still a dict and every entry it had is still there under the same
    signature with the same record: nothing is deleted or overwritten. *)
Theorem ledger_entries_never_change (envs : list cycle_env) (s : state)
        (d : list (string * pyval)) :
  processed_events s = PDict d ->
  exists d', processed_events (final (EventListener.start envs s)) = PDict d'
             /\ forall sig record, dict_get sig d = Some record ->
                                   dict_get sig d' = Some record.
Proof.
  intros Hd. destruct (start_final envs s) as [-> _].
  destruct (cycles_ledger_step envs s d "" Hd) as (d' & Hd' & K & _).
  exists d'. split; [exact Hd'|exact K].
Qed.

Lemma ledger_entries_never_change_witness :
  exists d',
    processed_events
      (final (EventListener.start
                [mkCycleEnv (Some 100) (Ok sample_batch)]
                (set_processed_events (PDict [("0x11-0", PInt 7)]) fresh_state)))
    = PDict d'
    /\ dict_get "0x11-0" d' = Some (PInt 7).
Proof.
  destruct (ledger_entries_never_change
              [mkCycleEnv (Some 100) (Ok sample_batch)]
              (set_processed_events (PDict [("0x11-0", PInt 7)]) fresh_state)
              [("0x11-0", PInt 7)] eq_refl) as (d' & Hd' & K).
  exists d'. split; [exact Hd'|]. now apply K.
Defined.

(** X4: over a run on a dict ledger, the number of commits of a
    signature is 1 if the signature is in the ledger at the end and was
    not at the start, and 0 otherwise.  So no signature is committed
    twice, and one already in the ledger is never committed again. *)
Theorem commits_at_most_once (envs : list cycle_env) (s : state)
        (d : list (string * pyval)) (sig : string) :
  processed_events s = PDict d ->
  let r := EventListener.start envs s in
  exists d', processed_events (final r) = PDict d'
             /\ commits_of sig (actions r) =
                (if dict_contains sig d then 0
                 else if dict_contains sig d' then 1 else 0)%nat
             /\ (commits_of sig (actions r) <= 1)%nat.
Proof.
  intros Hd r. subst r. destruct (start_final envs s) as [-> ->].
  destruct (cycles_ledger_step envs s d sig Hd) as (d' & Hd' & K & C).
  exists d'. split; [exact Hd'|]. simpl commits_of.
  assert (Hmono : dict_contains sig d = true -> dict_contains sig d' = true).
  { rewrite !dict_get_contains. destruct (dict_get sig d) as [v|] eqn:G; [|discriminate].
    now rewrite (K _ _ G). }
  destruct (dict_contains sig d); destruct (dict_contains sig d');
    simpl in C; try (specialize (Hmono eq_refl); discriminate); split; lia.
Qed.

Lemma commits_at_most_once_witness :
  exists d',
    processed_events
      (final (EventListener.start
                [mkCycleEnv (Some 100) (Ok [(sample_event, env_200); (sample_event, env_200)]);
                 mkCycleEnv (Some 120) (Ok [(sample_event, env_200)])]
                fresh_state)) = PDict d'
    /\ commits_of "0xab0c-2"
         (actions (EventListener.start
                [mkCycleEnv (Some 100) (Ok [(sample_event, env_200); (sample_event, env_200)]);
                 mkCycleEnv (Some 120) (Ok [(sample_event, env_200)])]
                fresh_state)) = 1%nat.
Proof.
  destruct (commits_at_most_once
              [mkCycleEnv (Some 100) (Ok [(sample_event, env_200); (sample_event, env_200)]);
               mkCycleEnv (Some 120) (Ok [(sample_event, env_200)])]
              fresh_state [] "0xab0c-2" eq_refl) as (d' & Hd' & _ & _).
  exists d'. split; [exact Hd'|reflexivity].
Defined.

(** ** Pace of the loop *)

Lemma total_sleep_app (t1 t2 : list effect) :
  total_sleep (t1 ++ t2) = total_sleep t1 + total_sleep t2.
Proof.
  induction t1 as [|x t1 IH]; simpl; [reflexivity|].
  destruct x; simpl; rewrite IH; lia.
Qed.

Lemma loop_errors_app (t1 t2 : list effect) :
  loop_errors (t1 ++ t2) = loop_errors t1 + loop_errors t2.
Proof.
  induction t1 as [|x t1 IH]; [reflexivity|].
  destruct x as [[] []| | |]; cbn [loop_errors app]; rewrite ?IH; lia.
Qed.

(** [process_event] never sleeps and never reaches the loop's handler,
    whatever the ledger holds. *)
Lemma process_event_quiet (event : LogReceipt) (env : event_env) (s : state) :
  total_sleep (actions (EventProcessor.process_event event env s)) = 0
  /\ loop_errors (actions (EventProcessor.process_event event env s)) = 0.
Proof.
  rewrite process_event_run. cbv zeta.
  destruct (py_contains _ (processed_events s)) as [[|]|x]; try (split; reflexivity).
  destruct (accepted (http env)) eqn:Hacc.
  - destruct (relay_log_accepted _ Hacc) as [j ->].
    destruct (processed_events s) as [| | | | | |d] eqn:E;
      try (rewrite mark_event_not_dict by (rewrite E; simpl; tauto); split; reflexivity).
    rewrite (mark_event_dict s _ _ _ _ d E).
    destruct (save env); split; reflexivity.
  - rewrite (relay_log_rejected _ Hacc). split; reflexivity.
Qed.

Lemma for_events_quiet (batch : list (LogReceipt * event_env)) (s : state) :
  total_sleep (actions (EventListener.for_events batch s)) = 0
  /\ loop_errors (actions (EventListener.for_events batch s)) = 0.
Proof.
  revert s. induction batch as [|[event env] rest IH]; intros s; [now split|].
  rewrite for_events_cons.
  destruct (process_event_quiet event env s) as [S1 L1].
  destruct (EventProcessor.process_event event env s) as [[[u|x] s1] t1];
    rewrite actions_triple in S1, L1.
  - destruct (IH s1) as [S2 L2].
    destruct (EventListener.for_events rest s1) as [[r s2] t2].
    rewrite actions_triple in *. rewrite total_sleep_app, loop_errors_app. lia.
  - rewrite actions_triple. now split.
Qed.

(** One iteration reaches the handler at most once and sleeps one
    interval, plus two more when the handler ran. *)
Lemma poll_cycle_pace (env : cycle_env) (s : state) :
  let t := actions (EventListener.poll_cycle env s) in
  0 <= loop_errors t <= 1
  /\ total_sleep t = poll_interval s * (1 + 2 * loop_errors t).
Proof.
  cbv zeta. rewrite poll_cycle_run.
  destruct (latest env) as [h|]; [|rewrite actions_triple; simpl; lia]. cbv zeta.
  destruct (current_block s >? h - reorg_confirmation_depth s);
    [rewrite actions_triple; simpl; lia|].
  destruct (fetch env) as [[|ev evs]|x]; try (rewrite actions_triple; simpl; lia).
  destruct (for_events_frame (ev :: evs) s) as [(_ & P & _) _].
  destruct (for_events_quiet (ev :: evs) s) as [S1 L1].
  destruct (EventListener.for_events (ev :: evs) s) as [[[u|x] s1] t1];
    rewrite final_triple in P; rewrite actions_triple in *; simpl;
    rewrite total_sleep_app, loop_errors_app, S1, L1, P; simpl; lia.
Qed.

(** X5: the loop never spins.  Over any run, it sleeps one polling
    interval per iteration and two more for every exception its handler
    caught; each iteration reaches the handler at most once, and [start]
    itself never raises. *)
Theorem loop_sleeps_every_iteration (envs : list cycle_env) (s : state) :
  let r := EventListener.start envs s in
  outcome r = Ok tt
  /\ 0 <= loop_errors (actions r) <= Z.of_nat (List.length envs)
  /\ total_sleep (actions r)
     = poll_interval s * (Z.of_nat (List.length envs) + 2 * loop_errors (actions r)).
Proof.
  cbv zeta.
  assert (Hc : forall envs s,
             outcome (EventListener.cycles envs s) = Ok tt
             /\ 0 <= loop_errors (actions (EventListener.cycles envs s))
                <= Z.of_nat (List.length envs)
             /\ total_sleep (actions (EventListener.cycles envs s))
                = poll_interval s
                  * (Z.of_nat (List.length envs)
                     + 2 * loop_errors (actions (EventListener.cycles envs s)))).
  { clear. induction envs as [|env rest IH]; intros s.
    - unfold outcome, actions; simpl. repeat split; lia.
    - rewrite cycles_cons. cbv zeta. rewrite outcome_triple, actions_triple.
      destruct (poll_cycle_pace env s) as [L1 S1].
      destruct (poll_cycle_listener env s) as (P & _ & _).
      destruct (IH (final (EventListener.poll_cycle env s))) as (O2 & L2 & S2).
      rewrite P in S2.
      rewrite total_sleep_app, loop_errors_app, S1, S2.
      change (List.length (env :: rest)) with (S (List.length rest)).
      rewrite Nat2Z.inj_succ. repeat split; try assumption; lia. }
  destruct (Hc envs s) as (O & L & S).
  destruct (start_final envs s) as [_ Ha]. rewrite Ha.
  unfold EventListener.start, bind, gets, logger, emit in *. simpl.
  destruct (EventListener.cycles envs s) as [[r s'] t].
  rewrite outcome_triple in *. rewrite actions_triple in *. simpl.
  repeat split; try assumption; lia.
Qed.

(** ** Ranges once scanned *)

(** An iteration whose fetch returns advances the cursor past the
    scanned range when the ledger is a dict. *)
Lemma poll_cycle_advances (env : cycle_env) (s : state) (h : Z)
      (events : list (LogReceipt * event_env)) :
  latest env = Some h ->
  current_block s <= h - reorg_confirmation_depth s ->
  fetch env = Ok events ->
  is_dict (processed_events s) ->
  current_block (final (EventListener.poll_cycle env s))
  = h - reorg_confirmation_depth s + 1.
Proof.
  intros L Hle Hf Hd. rewrite poll_cycle_run, L. cbv zeta.
  rewrite gtb_false by exact Hle. rewrite Hf.
  destruct events as [|ev evs]; [reflexivity|].
  destruct (processed_events s) as [| | | | | |d] eqn:E; try contradiction.
  destruct (for_events_dict (ev :: evs) s d E) as [O _].
  destruct (EventListener.for_events (ev :: evs) s) as [[r1 s1] t1].
  rewrite outcome_triple in O. subst r1. reflexivity.
Qed.

(** X7: a range is scanned once.  After an iteration that fetched the
    events of [cursor, safe] on a dict ledger, whatever the dispatch
    outcomes were, every range requested in any later iteration starts
    above safe: a block whose event failed to dispatch is not requested
    again. *)
Theorem scanned_range_not_requested_again
        (env : cycle_env) (s : state) (H : Z) (events : list (LogReceipt * event_env))
        (later : list cycle_env) (env' : cycle_env) (a b : Z) :
  latest env = Some H ->
  current_block s <= H - reorg_confirmation_depth s ->
  fetch env = Ok events ->
  is_dict (processed_events s) ->
  let s1 := final (EventListener.poll_cycle env s) in
  In (a, b) (requested_ranges
               (actions (EventListener.poll_cycle env'
                           (final (EventListener.cycles later s1))))) ->
  H - reorg_confirmation_depth s < a.
Proof.
  intros L Hle Hf Hd s1 Hin.
  assert (Hadv : current_block s1 = H - reorg_confirmation_depth s + 1)
    by (apply (poll_cycle_advances env s H events); assumption).
  destruct (cycles_listener later s1) as (_ & _ & Hmono).
  rewrite poll_cycle_ranges in Hin.
  destruct (latest env') as [h'|]; [|now simpl in Hin].
  destruct (current_block _ >? _); [now simpl in Hin|].
  destruct Hin as [Heq|[]]. injection Heq as <- _. lia.
Qed.

Lemma scanned_range_not_requested_again_witness :
  In (96, 115)
     (requested_ranges
        (actions (EventListener.poll_cycle (mkCycleEnv (Some 120) (Ok []))
                    (final (EventListener.cycles []
                              (final (EventListener.poll_cycle
                                        (mkCycleEnv (Some 100) (Ok [(sample_event, env_500)]))
                                        fresh_state)))))))
  /\ 100 - reorg_confirmation_depth fresh_state < 96.
Proof.
  assert (Hin : In (96, 115)
     (requested_ranges
        (actions (EventListener.poll_cycle (mkCycleEnv (Some 120) (Ok []))
                    (final (EventListener.cycles []
                              (final (EventListener.poll_cycle
                                        (mkCycleEnv (Some 100) (Ok [(sample_event, env_500)]))
                                        fresh_state))))))))
    by (simpl; now left).
  split; [exact Hin|].
  assert (Hle : current_block fresh_state <= 100 - reorg_confirmation_depth fresh_state)
    by (simpl; lia).
  exact (scanned_range_not_requested_again
           (mkCycleEnv (Some 100) (Ok [(sample_event, env_500)])) fresh_state 100
           [(sample_event, env_500)] [] (mkCycleEnv (Some 120) (Ok [])) 96 115
           eq_refl Hle eq_refl I Hin).
Defined.

(** ** A ledger that is not a dict *)

Lemma cycles_repeat_fixed (env : cycle_env) (s : state) (n : nat) :
  final (EventListener.poll_cycle env s) = s ->
  final (EventListener.cycles (repeat env n) s) = s
  /\ dispatch_calls (actions (EventListener.cycles (repeat env n) s))
     = (n * dispatch_calls (actions (EventListener.poll_cycle env s)))%nat.
Proof.
  intros Hfix. induction n as [|n [IH1 IH2]]; [now split|].
  simpl repeat. rewrite cycles_cons. cbv zeta. rewrite Hfix, final_triple, actions_triple.
  split; [exact IH1|]. rewrite dispatch_calls_app, IH2. simpl. lia.
Qed.

(** X8: a state file holding a JSON list makes the ledger a list.  An
    event not in it whose dispatch succeeds is then POSTed, but the
    commit raises [TypeError]; the loop's handler catches it, and the
    iteration leaves the whole state, cursor included, as it was.  So
    the same answers of the environment lead to the same delivery again:
    n iterations make n dispatch calls for the event. *)
Theorem list_ledger_redelivers
        (env : cycle_env) (s : state) (l : list pyval) (h : Z)
        (event : LogReceipt) (eenv : event_env) (n : nat) :
  processed_events s = PList l ->
  latest env = Some h ->
  current_block s <= h - reorg_confirmation_depth s ->
  fetch env = Ok [(event, eenv)] ->
  existsb (str_eq_val (EventProcessor.event_signature event)) l = false ->
  dispatch_result event eenv s = Ok true ->
  outcome (EventProcessor.process_event event eenv s) = Raise TypeError
  /\ final (EventListener.poll_cycle env s) = s
  /\ In (Log ERROR (LoopError TypeError)) (actions (EventListener.poll_cycle env s))
  /\ dispatch_calls (actions (EventListener.cycles (repeat env n) s)) = n.
Proof.
  intros Hl L Hle Hf Hnew Hacc.
  rewrite dispatch_result_accepted in Hacc. injection Hacc as Hacc.
  destruct (relay_log_accepted _ Hacc) as [j Hj].
  assert (Hp : EventProcessor.process_event event eenv s =
               (Raise TypeError, s,
                [Log INFO (ProcessingNew (EventProcessor.event_signature event));
                 Log INFO (Relaying (PDict [("eventType", PStr "TokensLocked");
                                            ("payload", EventProcessor.processed_data event)]));
                 Post (PDict [("eventType", PStr "TokensLocked");
                              ("payload", EventProcessor.processed_data event)]);
                 Log INFO (RelaySucceeded j)])).
  { rewrite process_event_run. cbv zeta. rewrite Hl. simpl py_contains.
    rewrite Hnew, Hacc, Hj.
    rewrite mark_event_not_dict by (rewrite Hl; simpl; tauto). reflexivity. }
  assert (Hc : EventListener.poll_cycle env s =
               (Ok tt, s,
                [Log INFO (Scanning (current_block s) (h - reorg_confirmation_depth s));
                 GetLogs (current_block s) (h - reorg_confirmation_depth s);
                 Log INFO (FoundEvents 1);
                 Log INFO (ProcessingNew (EventProcessor.event_signature event));
                 Log INFO (Relaying (PDict [("eventType", PStr "TokensLocked");
                                            ("payload", EventProcessor.processed_data event)]));
                 Post (PDict [("eventType", PStr "TokensLocked");
                              ("payload", EventProcessor.processed_data event)]);
                 Log INFO (RelaySucceeded j);
                 Log ERROR (LoopError TypeError);
                 Sleep (poll_interval s * 2); Sleep (poll_interval s)])).
  { rewrite poll_cycle_run, L. cbv zeta. rewrite gtb_false by exact Hle.
    rewrite Hf, for_events_cons, Hp. reflexivity. }
  split; [now rewrite Hp|]. split; [now rewrite Hc|]. split.
  - rewrite Hc, actions_triple. simpl. tauto.
  - destruct (cycles_repeat_fixed env s n) as [_ ->]; [now rewrite Hc|].
    rewrite Hc, actions_triple. unfold dispatch_calls. simpl. lia.
Qed.

Lemma list_ledger_redelivers_witness :
  dispatch_calls
    (actions (EventListener.cycles
                (repeat (mkCycleEnv (Some 100) (Ok [(sample_event, env_200)])) 3)
                (set_processed_events (PList []) fresh_state))) = 3%nat.
Proof.
  assert (Hle : current_block (set_processed_events (PList []) fresh_state)
                <= 100 - reorg_confirmation_depth
                           (set_processed_events (PList []) fresh_state))
    by (simpl; lia).
  exact (proj2 (proj2 (proj2
           (list_ledger_redelivers
              (mkCycleEnv (Some 100) (Ok [(sample_event, env_200)]))
              (set_processed_events (PList []) fresh_state) [] 100
              sample_event env_200 3 eq_refl eq_refl Hle eq_refl eq_refl eq_refl)))).
Defined.

(** ** The relay's verdict *)

(** X9: [relay_transaction] makes exactly one POST, leaves the state
    alone and never raises.  It returns [True] exactly when a response
    arrived whose status is outside 400..599 and whose body decodes as
    JSON: the test is on 4xx/5xx, so a final 3xx or 1xx answer counts
    as success. *)
Theorem relay_transaction_true_iff (data : pyval) (h : http_outcome) (s : state) :
  let r := RelayerService.relay_transaction data h s in
  (outcome r = Ok true <->
   exists c j, h = Response c (Some j) /\ (c < 400 \/ 600 <= c))
  /\ (outcome r = Ok true \/ outcome r = Ok false)
  /\ final r = s
  /\ dispatch_calls (actions r) = 1%nat.
Proof.
  cbv zeta. rewrite relay_transaction_run.
  rewrite outcome_triple, final_triple, actions_triple.
  split; [|split; [|split]].
  - unfold accepted, RelayerService.raises_for_status. split.
    + destruct h as [|c [j|]]; try discriminate.
      * intros Hacc. exists c, j. split; [reflexivity|].
        injection Hacc as Hacc. rewrite andb_true_r in Hacc.
        apply negb_true_iff, andb_false_iff in Hacc.
        destruct Hacc as [Hacc|Hacc];
          [apply Z.leb_gt in Hacc | apply Z.ltb_ge in Hacc]; lia.
      * rewrite andb_false_r. discriminate.
    + intros (c & j & -> & Hc). f_equal. rewrite andb_true_r.
      apply negb_true_iff, andb_false_iff.
      destruct Hc as [Hc|Hc]; [left; apply Z.leb_gt | right; apply Z.ltb_ge]; lia.
  - destruct (accepted h); auto.
  - reflexivity.
  - now destruct (accepted h).
Qed.

(** ** BlockchainConnector and the loop *)

(** X6: an iteration in which the height cannot be obtained (the
    client was never built, the node does not answer the probe, or
    the height query raises) makes no log query and no dispatch, leaves
    the state as it is and sleeps one polling interval, without the
    extended backoff. *)
Theorem unreachable_node_iteration
        (c : BlockchainConnector.t) (is_connected : bool) (block_number : option Z)
        (f : result (list (LogReceipt * event_env))) (s : state) :
  BlockchainConnector.web3 c = None \/ is_connected = false \/ block_number = None ->
  let latest_block :=
    fst (BlockchainConnector.get_latest_block_number c is_connected block_number) in
  latest_block = None
  /\ EventListener.poll_cycle (mkCycleEnv latest_block f) s =
     (Ok tt, s, [Log WARNING NoLatestBlock; Sleep (poll_interval s)]).
Proof.
  intros Hdown latest_block.
  assert (Hnone : latest_block = None).
  { subst latest_block. unfold BlockchainConnector.get_latest_block_number.
    destruct (BlockchainConnector.web3 c) as [w|]; [|reflexivity].
    destruct is_connected; [|reflexivity].
    destruct block_number as [n|]; [|reflexivity].
    destruct Hdown as [H|[H|H]]; discriminate. }
  split; [exact Hnone|]. rewrite Hnone, poll_cycle_run. reflexivity.
Qed.

Lemma unreachable_node_iteration_witness :
  EventListener.poll_cycle
    (mkCycleEnv
       (fst (BlockchainConnector.get_latest_block_number
               (BlockchainConnector.mk "http://node"
                  (Some (BlockchainConnector.Web3Client "http://node")))
               false (Some 100)))
       (Ok [(sample_event, env_200)]))
    fresh_state
  = (Ok tt, fresh_state, [Log WARNING NoLatestBlock; Sleep 15]).
Proof.
  exact (proj2 (unreachable_node_iteration
                  (BlockchainConnector.mk "http://node"
                     (Some (BlockchainConnector.Web3Client "http://node")))
                  false (Some 100) (Ok [(sample_event, env_200)]) fresh_state
                  (or_intror (or_introl eq_refl)))).
Defined.

(** X10: what a connector can do after [connect].  Whatever [connect]
    returned, a later height query gives a height exactly when
    [connect] built the client, the node answers the probe and the
    query returns; [get_contract] gives a contract (bound to the
    checksummed address) exactly when [connect] built the client, the
    node answers the probe and the address converts.  [connect] returns
    [True] exactly when it built the client and the node answered. *)
Theorem connector_after_connect
        (url address : string) (constructs connected0 connected1 : bool)
        (block_number : option Z) (checksum : string -> option string)
        (n : Z) (a : string) :
  let attempt := BlockchainConnector.connect (BlockchainConnector.__init__ url)
                   constructs connected0 in
  let c := snd (fst attempt) in
  (fst (fst attempt) = true <-> constructs = true /\ connected0 = true)
  /\ (fst (BlockchainConnector.get_latest_block_number c connected1 block_number) = Some n
      <-> constructs = true /\ connected1 = true /\ block_number = Some n)
  /\ (fst (BlockchainConnector.get_contract c address connected1 checksum)
      = BlockchainConnector.Contract a
      <-> constructs = true /\ connected1 = true /\ checksum address = Some a)
  /\ (fst (BlockchainConnector.get_contract c address connected1 checksum)
      = BlockchainConnector.InvalidAddress
      <-> constructs = true /\ connected1 = true /\ checksum address = None).
Proof.
  cbv zeta.
  unfold BlockchainConnector.connect, BlockchainConnector.get_latest_block_number,
    BlockchainConnector.get_contract, BlockchainConnector.__init__.
  destruct constructs, connected0, connected1; simpl;
    destruct block_number as [m|]; destruct (checksum address) as [x|]; simpl;
    repeat split; intros; try discriminate; try tauto;
    repeat match goal with
           | H : _ /\ _ |- _ => destruct H
           | H : Some _ = Some _ |- _ => injection H as H; subst
           | H : BlockchainConnector.Contract _ = BlockchainConnector.Contract _ |- _ =>
               injection H as H; subst
           end;
    try discriminate; try reflexivity.
Qed.

(** ** main *)

Lemma entered_loop_app (t1 t2 : list main_effect) :
  entered_loop (t1 ++ t2) =
  match entered_loop t1 with Some n => Some n | None => entered_loop t2 end.
Proof.
  induction t1 as [|x t1 IH]; [reflexivity|].
  destruct x as [lvl m|lvl m|[[] []| | |]]; cbn [entered_loop app]; auto.
Qed.

Lemma main_requested_ranges_app (t1 t2 : list main_effect) :
  main_requested_ranges (t1 ++ t2)
  = (main_requested_ranges t1 ++ main_requested_ranges t2)%list.
Proof.
  induction t1 as [|x t1 IH]; [reflexivity|].
  destruct x as [lvl m|lvl m|[]]; cbn [main_requested_ranges app]; rewrite ?IH; auto.
Qed.

Lemma main_requested_ranges_pipeline (t : list effect) :
  main_requested_ranges (map Pipeline t) = requested_ranges t.
Proof.
  induction t as [|x t IH]; [reflexivity|].
  destruct x; cbn [map main_requested_ranges requested_ranges]; now rewrite ?IH.
Qed.

Lemma connector_logs_quiet (l : list (level * BlockchainConnector.msg)) :
  entered_loop (connector_logs l) = None /\ main_requested_ranges (connector_logs l) = [].
Proof. induction l as [|x l [IH1 IH2]]; simpl; auto. Qed.

Lemma statedb_init_quiet (s : state) :
  entered_loop (map Pipeline (actions (StateDB.__init__ s))) = None
  /\ requested_ranges (actions (StateDB.__init__ s)) = [].
Proof.
  unfold StateDB.__init__, StateDB._load_state, bind, gets, modify, lift, logger, emit,
    raise, ret, actions. simpl.
  destruct (state_file s) as [| | |[]]; simpl; auto.
Qed.

Lemma start_ok (envs : list cycle_env) (s : state) :
  outcome (EventListener.start envs s) = Ok tt.
Proof.
  assert (Hc : forall envs s, outcome (EventListener.cycles envs s) = Ok tt).
  { clear. induction envs as [|env rest IH]; intros s; [reflexivity|].
    rewrite cycles_cons. cbv zeta. rewrite outcome_triple. apply IH. }
  specialize (Hc envs s).
  unfold EventListener.start, bind, gets, logger, emit. simpl.
  destruct (EventListener.cycles envs s) as [[r s'] t].
  rewrite outcome_triple in *. now subst.
Qed.

Lemma run_listener_run (start_block : Z) (env : main_env) (s : state) :
  run_listener start_block env s =
  (Returned,
   final (EventListener.start (loop_answers env) (EventListener.__init__ start_block s)),
   Pipeline (Log INFO (StartingListener start_block))
   :: map Pipeline
        (actions (EventListener.cycles (loop_answers env)
                    (EventListener.__init__ start_block s)))).
Proof.
  unfold run_listener.
  pose proof (start_ok (loop_answers env) (EventListener.__init__ start_block s)) as O.
  destruct (start_final (loop_answers env) (EventListener.__init__ start_block s))
    as [_ Ha].
  destruct (EventListener.start (loop_answers env) (EventListener.__init__ start_block s))
    as [[r s'] t].
  rewrite outcome_triple in O. rewrite actions_triple in Ha. subst r t.
  now rewrite final_triple.
Qed.

(** Where a run of [main] ends up, as a function of what it finds. *)
Lemma main_run (py_int : string -> option Z) (env : main_env) (fs : file_state) :
  let sb := getenv_default (START_BLOCK env) "latest" in
  let address := getenv_default (BRIDGE_CONTRACT_ADDRESS env) "" in
  let start_block :=
    if String.eqb (str_lower sb) "latest"
    then (if connected_on_start_block env then block_number_on_start env else None)
    else py_int sb in
  let r := main py_int env fs in
  if negb (configured env) then main_result r = Returned /\ entered_loop (main_trace r) = None
                                /\ main_requested_ranges (main_trace r) = []
  else
    match outcome (StateDB.__init__ (startup_state fs)) with
    | Raise e => main_result r = Raised (FromStateDB e) /\ entered_loop (main_trace r) = None
                 /\ main_requested_ranges (main_trace r) = []
    | Ok _ =>
        if client_constructs env && connected_on_connect env && connected_on_get_contract env
        then
          match to_checksum_address env address with
          | None => main_result r = Raised InvalidAddressError
                    /\ entered_loop (main_trace r) = None
                    /\ main_requested_ranges (main_trace r) = []
          | Some _ =>
              main_result r = Returned
              /\ entered_loop (main_trace r) = start_block
              /\ main_requested_ranges (main_trace r) =
                 match start_block with
                 | None => []
                 | Some n =>
                     requested_ranges
                       (actions (EventListener.cycles (loop_answers env)
                                   (EventListener.__init__ n
                                      (final (StateDB.__init__ (startup_state fs))))))
                 end
          end
        else main_result r = Returned /\ entered_loop (main_trace r) = None
             /\ main_requested_ranges (main_trace r) = []
    end.
Proof.
  cbv zeta. unfold main, configured.
  destruct (negb _); [now repeat split|].
  destruct (statedb_init_quiet (startup_state fs)) as [Q1 Q2].
  destruct (StateDB.__init__ (startup_state fs)) as [[[u|e] s1] t1];
    rewrite outcome_triple; rewrite actions_triple in Q1, Q2; rewrite ?final_triple.
  2:{ unfold main_result, main_trace. simpl.
      rewrite Q1, main_requested_ranges_pipeline, Q2. now repeat split. }
  unfold BlockchainConnector.connect, BlockchainConnector.__init__.
  destruct (client_constructs env); simpl;
    [|unfold main_result, main_trace; simpl;
      rewrite !entered_loop_app, !main_requested_ranges_app, Q1,
        main_requested_ranges_pipeline, Q2; now repeat split].
  destruct (connected_on_connect env); simpl;
    [|unfold main_result, main_trace; simpl;
      rewrite !entered_loop_app, !main_requested_ranges_app, Q1,
        main_requested_ranges_pipeline, Q2; now repeat split].
  unfold BlockchainConnector.get_contract. simpl.
  destruct (connected_on_get_contract env); simpl;
    [|unfold main_result, main_trace; simpl;
      rewrite !entered_loop_app, !main_requested_ranges_app, Q1,
        main_requested_ranges_pipeline, Q2; now repeat split].
  destruct (to_checksum_address env _) as [a|];
    [|unfold main_result, main_trace; simpl;
      rewrite !entered_loop_app, !main_requested_ranges_app, Q1,
        main_requested_ranges_pipeline, Q2; now repeat split].
  destruct (String.eqb _ "latest").
  - unfold BlockchainConnector.get_latest_block_number. simpl.
    destruct (connected_on_start_block env);
      [destruct (block_number_on_start env) as [n|]|]; simpl;
      rewrite ?run_listener_run; unfold main_result, main_trace; simpl;
      rewrite !entered_loop_app, !main_requested_ranges_app, ?Q1,
        ?main_requested_ranges_pipeline, ?Q2; simpl;
      rewrite ?main_requested_ranges_pipeline; now repeat split.
  - destruct (py_int _) as [n|]; simpl;
      rewrite ?run_listener_run; unfold main_result, main_trace; simpl;
      rewrite !entered_loop_app, !main_requested_ranges_app, ?Q1,
        ?main_requested_ranges_pipeline, ?Q2; simpl;
      rewrite ?main_requested_ranges_pipeline; now repeat split.
Qed.

(** Every range requested during a run starts at or above the cursor
    the run started with and is not empty. *)
Lemma cycles_ranges_from_cursor (envs : list cycle_env) (s : state) (a b : Z) :
  In (a, b) (requested_ranges (actions (EventListener.cycles envs s))) ->
  current_block s <= a <= b.
Proof.
  revert s. induction envs as [|env rest IH]; intros s Hin; [now simpl in Hin|].
  rewrite cycles_cons in Hin. cbv zeta in Hin.
  rewrite actions_triple, requested_ranges_app in Hin.
  apply in_app_or in Hin. destruct Hin as [Hin|Hin].
  - rewrite poll_cycle_ranges in Hin.
    destruct (latest env) as [h|]; [|now simpl in Hin].
    destruct (Z.gtb_spec (current_block s) (h - reorg_confirmation_depth s));
      [now simpl in Hin|].
    destruct Hin as [Heq|[]]. injection Heq as <- <-. lia.
  - apply IH in Hin. destruct (poll_cycle_listener env s) as (_ & _ & Hmono). lia.
Qed.

(** X11: [main] enters the polling loop, from block n, exactly when the
    three required variables are set and non-empty, the ledger loads
    without an exception, the client is built and the node answers both
    probes, the contract address converts, and the start block resolves
    to n: for [START_BLOCK] unset or equal to [latest] in any letter
    case, n is the height the node reports; otherwise n is what [int]
    makes of the variable. *)
Theorem main_enters_loop_iff (py_int : string -> option Z) (env : main_env)
        (fs : file_state) (n : Z) :
  let sb := getenv_default (START_BLOCK env) "latest" in
  entered_loop (main_trace (main py_int env fs)) = Some n <->
  configured env = true
  /\ outcome (StateDB.__init__ (startup_state fs)) = Ok tt
  /\ client_constructs env = true
  /\ connected_on_connect env = true
  /\ connected_on_get_contract env = true
  /\ to_checksum_address env (getenv_default (BRIDGE_CONTRACT_ADDRESS env) "") <> None
  /\ (if String.eqb (str_lower sb) "latest"
      then connected_on_start_block env = true /\ block_number_on_start env = Some n
      else py_int sb = Some n).
Proof.
  cbv zeta. pose proof (main_run py_int env fs) as R. cbv zeta in R.
  destruct (configured env); simpl negb in R; cbv iota in R;
    [|destruct R as (_ & -> & _); split; [discriminate | intros (H & _); discriminate]].
  destruct (outcome (StateDB.__init__ (startup_state fs))) as [[]|e];
    [|destruct R as (_ & -> & _); split;
      [discriminate | intros (_ & H & _); discriminate]].
  destruct (client_constructs env); simpl in R;
    [|destruct R as (_ & -> & _); split;
      [discriminate | intros (_ & _ & H & _); discriminate]].
  destruct (connected_on_connect env); simpl in R;
    [|destruct R as (_ & -> & _); split;
      [discriminate | intros (_ & _ & _ & H & _); discriminate]].
  destruct (connected_on_get_contract env); simpl in R;
    [|destruct R as (_ & -> & _); split;
      [discriminate | intros (_ & _ & _ & _ & H & _); discriminate]].
  destruct (to_checksum_address env _) as [a|];
    [|destruct R as (_ & -> & _); split;
      [discriminate | intros (_ & _ & _ & _ & _ & H & _); now destruct H]].
  destruct R as (_ & -> & _).
  destruct (String.eqb _ "latest").
  - destruct (connected_on_start_block env).
    + split; [intros ->; repeat split; discriminate | intros (_ & _ & _ & _ & _ & _ & _ & H); exact H].
    + split; [discriminate | intros (_ & _ & _ & _ & _ & _ & H & _); discriminate].
  - split; [intros ->; repeat split; discriminate | intros (_ & _ & _ & _ & _ & _ & H); exact H].
Qed.

(** X12: [main] lets an exception escape in two cases only, both with
    a complete configuration: [StateDB] raised while loading (the state
    file cannot be read, or holds a JSON number, boolean or null), or
    the client is connected and the contract address does not convert.
    In the first case nothing but the opening record has been logged
    and no connection has been attempted. *)
Theorem main_raises_iff (py_int : string -> option Z) (env : main_env)
        (fs : file_state) (e : main_exn) :
  (main_result (main py_int env fs) = Raised e <->
   configured env = true
   /\ ((exists x, outcome (StateDB.__init__ (startup_state fs)) = Raise x
                  /\ e = FromStateDB x)
       \/ (outcome (StateDB.__init__ (startup_state fs)) = Ok tt
           /\ client_constructs env = true
           /\ connected_on_connect env = true
           /\ connected_on_get_contract env = true
           /\ to_checksum_address env (getenv_default (BRIDGE_CONTRACT_ADDRESS env) "")
              = None
           /\ e = InvalidAddressError)))
  /\ (configured env = true ->
      forall v, fs = FileJSON v -> py_len v = Raise TypeError ->
                main py_int env fs =
                (Raised (FromStateDB TypeError),
                 set_processed_events v (startup_state fs), [MainLog INFO Initializing]))
  /\ (configured env = true -> fs = FileUnreadable ->
      main py_int env fs =
      (Raised (FromStateDB OSError), startup_state fs, [MainLog INFO Initializing])).
Proof.
  split; [|split].
  - pose proof (main_run py_int env fs) as R. cbv zeta in R.
    destruct (configured env); simpl negb in R; cbv iota in R;
      [|destruct R as (-> & _); split; [discriminate | intros (H & _); discriminate]].
    destruct (outcome (StateDB.__init__ (startup_state fs))) as [[]|x].
    + destruct (client_constructs env); simpl in R;
        [|destruct R as (-> & _); split;
          [discriminate | intros (_ & [(y & H & _)|(_ & H & _)]); discriminate]].
      destruct (connected_on_connect env); simpl in R;
        [|destruct R as (-> & _); split;
          [discriminate | intros (_ & [(y & H & _)|(_ & _ & H & _)]); discriminate]].
      destruct (connected_on_get_contract env); simpl in R;
        [|destruct R as (-> & _); split;
          [discriminate | intros (_ & [(y & H & _)|(_ & _ & _ & H & _)]); discriminate]].
      destruct (to_checksum_address env _) as [a|]; destruct R as (-> & _).
      * split; [discriminate | intros (_ & [(y & H & _)|(_ & _ & _ & _ & H & _)]); discriminate].
      * split.
        -- intros [= <-]. split; [reflexivity|]. right. now repeat split.
        -- intros (_ & [(y & H & _)|(_ & _ & _ & _ & _ & ->)]); [discriminate|reflexivity].
    + destruct R as (-> & _). split.
      * intros [= <-]. split; [reflexivity|]. left. now exists x.
      * intros (_ & [(y & [= <-] & ->)|(H & _)]); [reflexivity|discriminate].
  - intros Hc v -> Hlen. unfold main. fold (configured env). rewrite Hc. simpl negb.
    cbv iota. unfold StateDB.__init__, StateDB._load_state, bind, gets, modify, lift, ret.
    simpl. rewrite Hlen. reflexivity.
  - intros Hc ->. unfold main. fold (configured env). rewrite Hc. reflexivity.
Qed.

Lemma main_raises_iff_witness :
  main decimal_int sample_main_env (FileJSON (PInt 5)) =
  (Raised (FromStateDB TypeError),
   set_processed_events (PInt 5) (startup_state (FileJSON (PInt 5))),
   [MainLog INFO Initializing]).
Proof.
  exact (proj1 (proj2 (main_raises_iff decimal_int sample_main_env (FileJSON (PInt 5))
                         InvalidAddressError))
               eq_refl (PInt 5) eq_refl eq_refl).
Defined.

(** X13: a run of [main] never asks for a block below the one it
    started from.  Every range it requests is non-empty and starts at
    or above the block the loop was entered with; with [START_BLOCK]
    unset that block is the chain height at startup, so logs in earlier
    blocks are never fetched. *)
Theorem main_never_scans_below_start (py_int : string -> option Z) (env : main_env)
        (fs : file_state) (a b : Z) :
  In (a, b) (main_requested_ranges (main_trace (main py_int env fs))) ->
  exists n,
    entered_loop (main_trace (main py_int env fs)) = Some n
    /\ n <= a <= b
    /\ (START_BLOCK env = None -> block_number_on_start env = Some n).
Proof.
  intros Hin. pose proof (main_run py_int env fs) as R. cbv zeta in R.
  destruct (negb (configured env));
    [destruct R as (_ & _ & R); rewrite R in Hin; now simpl in Hin|].
  destruct (outcome (StateDB.__init__ (startup_state fs))) as [[]|x];
    [|destruct R as (_ & _ & R); rewrite R in Hin; now simpl in Hin].
  destruct (client_constructs env && connected_on_connect env
            && connected_on_get_contract env);
    [|destruct R as (_ & _ & R); rewrite R in Hin; now simpl in Hin].
  destruct (to_checksum_address env _) as [c|];
    [|destruct R as (_ & _ & R); rewrite R in Hin; now simpl in Hin].
  destruct R as (_ & R1 & R2). rewrite R2 in Hin. rewrite R1.
  destruct (START_BLOCK env) as [sb|] eqn:Esb; simpl in *.
  - destruct (if String.eqb (str_lower sb) "latest" then _ else _) as [n|];
      [|now simpl in Hin].
    exists n. split; [reflexivity|]. split; [|discriminate].
    apply cycles_ranges_from_cursor in Hin. exact Hin.
  - destruct (connected_on_start_block env); [|now simpl in Hin].
    destruct (block_number_on_start env) as [n|]; [|now simpl in Hin].
    exists n. split; [reflexivity|]. split; [|reflexivity].
    apply cycles_ranges_from_cursor in Hin. exact Hin.
Qed.

Lemma main_never_scans_below_start_witness :
  In (100, 115) (main_requested_ranges (main_trace (main decimal_int sample_main_env FileAbsent)))
  /\ exists n,
      entered_loop (main_trace (main decimal_int sample_main_env FileAbsent)) = Some n
      /\ n <= 100 <= 115
      /\ (START_BLOCK sample_main_env = None ->
          block_number_on_start sample_main_env = Some n).
Proof.
  assert (Hin : In (100, 115)
                   (main_requested_ranges
                      (main_trace (main decimal_int sample_main_env FileAbsent))))
    by (simpl; now left).
  split; [exact Hin|].
  exact (main_never_scans_below_start decimal_int sample_main_env FileAbsent 100 115 Hin).
Defined.

(** ** The ledger and its file *)

(** An event processed without a commit leaves the whole state as it
    was, whatever the ledger holds. *)
Lemma process_event_no_commit (event : LogReceipt) (env : event_env) (s : state) :
  ledger_commits (actions (EventProcessor.process_event event env s)) = 0%nat ->
  final (EventProcessor.process_event event env s) = s.
Proof.
  rewrite process_event_run. cbv zeta.
  destruct (py_contains _ (processed_events s)) as [[|]|x]; try reflexivity.
  destruct (accepted (http env)) eqn:Hacc; [|reflexivity].
  destruct (relay_log_accepted _ Hacc) as [j ->].
  destruct (processed_events s) as [| | | | | |d] eqn:E;
    try (rewrite mark_event_not_dict by (rewrite E; simpl; tauto); reflexivity).
  rewrite (mark_event_dict s _ _ _ _ d E).
  destruct (save env); discriminate.
Qed.

Lemma for_events_no_commit (batch : list (LogReceipt * event_env)) (s : state) :
  ledger_commits (actions (EventListener.for_events batch s)) = 0%nat ->
  final (EventListener.for_events batch s) = s.
Proof.
  revert s. induction batch as [|[event env] rest IH]; intros s; [reflexivity|].
  rewrite for_events_cons.
  pose proof (process_event_no_commit event env s) as P.
  destruct (EventProcessor.process_event event env s) as [[[u|x] s1] t1];
    rewrite actions_triple, final_triple in P.
  - specialize (IH s1).
    destruct (EventListener.for_events rest s1) as [[r s2] t2].
    rewrite actions_triple, final_triple in *. rewrite ledger_commits_app.
    intros H0. assert (H1 : ledger_commits t1 = 0%nat) by lia.
    assert (H2 : ledger_commits t2 = 0%nat) by lia.
    rewrite <- (P H1). rewrite (P H1) in IH. rewrite (P H1). now apply IH.
  - rewrite actions_triple, final_triple. exact P.
Qed.

Lemma poll_cycle_commits (env : cycle_env) (s : state) :
  ledger_commits (actions (EventListener.poll_cycle env s))
  = ledger_commits (actions (EventListener.for_events (batch_of env s) s)).
Proof.
  rewrite poll_cycle_run. unfold batch_of.
  destruct (latest env) as [h|]; [|reflexivity]. cbv zeta.
  destruct (current_block s >? h - reorg_confirmation_depth s); [reflexivity|].
  destruct (fetch env) as [[|ev evs]|x]; try reflexivity.
  destruct (EventListener.for_events (ev :: evs) s) as [[[u|x] s1] t1];
    rewrite !actions_triple; unfold ledger_commits; simpl;
    rewrite filter_app, length_app; simpl; lia.
Qed.

(** X14: the ledger and its file change only by commits.  Over a run
    in which no commit is logged, whatever the ledger holds and whatever
    the environment answers, the in-memory ledger and the state file are
    at the end what they were at the start. *)
Theorem store_changes_only_by_commits (envs : list cycle_env) (s : state) :
  ledger_commits (actions (EventListener.start envs s)) = 0%nat ->
  processed_events (final (EventListener.start envs s)) = processed_events s
  /\ state_file (final (EventListener.start envs s)) = state_file s.
Proof.
  destruct (start_final envs s) as [-> ->].
  change (ledger_commits (Log INFO (StartingListener (current_block s))
                          :: actions (EventListener.cycles envs s)))
    with (ledger_commits (actions (EventListener.cycles envs s))).
  revert s. induction envs as [|env rest IH]; intros s H0; [now split|].
  rewrite cycles_cons in *. cbv zeta in *. rewrite actions_triple in H0.
  rewrite final_triple. rewrite ledger_commits_app, poll_cycle_commits in H0.
  assert (H1 : ledger_commits (actions (EventListener.for_events (batch_of env s) s))
               = 0%nat) by lia.
  destruct (poll_cycle_ledger env s) as (P1 & P2 & _).
  rewrite (for_events_no_commit _ _ H1) in P1, P2.
  destruct (IH (final (EventListener.poll_cycle env s))) as [Q1 Q2]; [lia|].
  split; congruence.
Qed.

Lemma store_changes_only_by_commits_witness :
  processed_events
    (final (EventListener.start [mkCycleEnv (Some 100) (Ok [(sample_event, env_500)])]
              fresh_state)) = PDict []
  /\ state_file
       (final (EventListener.start [mkCycleEnv (Some 100) (Ok [(sample_event, env_500)])]
                 fresh_state)) = FileAbsent.
Proof.
  exact (store_changes_only_by_commits
           [mkCycleEnv (Some 100) (Ok [(sample_event, env_500)])] fresh_state eq_refl).
Defined.

(** One event, on a dict ledger that a restart would recover, with a
    write that succeeds if it happens: a restart still recovers the
    ledger afterwards. *)
Lemma process_event_recoverable (event : LogReceipt) (env : event_env) (s : state)
      (d : list (string * pyval)) :
  processed_events s = PDict d ->
  reload (state_file s) = Ok (processed_events s) ->
  save env = SaveOk ->
  let s' := final (EventProcessor.process_event event env s) in
  is_dict (processed_events s') /\ reload (state_file s') = Ok (processed_events s').
Proof.
  intros Hd Hrec Hsave. cbv zeta.
  destruct (process_event_dict_cases event env s d Hd)
    as [(_ & ->)|[(_ & _ & ->)|(_ & _ & j & s' & ts & -> & Hd' & _ & _ & Hfile)]];
    rewrite final_triple.
  - rewrite Hd at 1. now split.
  - rewrite Hd at 1. now split.
  - rewrite Hd'. split; [exact I|]. rewrite Hfile, Hsave. reflexivity.
Qed.

Lemma for_events_recoverable (batch : list (LogReceipt * event_env)) (s : state) :
  is_dict (processed_events s) ->
  reload (state_file s) = Ok (processed_events s) ->
  batch_saves_ok batch ->
  let s' := final (EventListener.for_events batch s) in
  is_dict (processed_events s') /\ reload (state_file s') = Ok (processed_events s').
Proof.
  cbv zeta. revert s. induction batch as [|[event env] rest IH]; intros s Hd Hrec Hok.
  - now split.
  - inversion Hok as [|? ? Hsave Hrest]; subst. simpl in Hsave.
    destruct (processed_events s) as [| | | | | |d] eqn:E; try contradiction.
    assert (Hrec' : reload (state_file s) = Ok (processed_events s)) by (now rewrite E).
    destruct (process_event_recoverable event env s d E Hrec' Hsave) as [D1 R1].
    destruct (process_event_dict event env s d E) as (O1 & _).
    rewrite for_events_cons.
    destruct (EventProcessor.process_event event env s) as [[r1 s1] t1].
    rewrite outcome_triple in O1. rewrite final_triple in D1, R1. subst r1.
    destruct (IH s1 D1 R1 Hrest) as [D2 R2].
    destruct (EventListener.for_events rest s1) as [[r2 s2] t2].
    rewrite final_triple in *. now split.
Qed.

(** X15: a restart recovers the ledger.  If at the start the ledger is
    a dict and is what a fresh [StateDB] would load from the state file
    (in particular: empty ledger, no file), and every write of the run
    succeeds, then after any number of iterations the state file still
    loads to exactly the in-memory ledger. *)
Theorem restart_recovers_ledger (envs : list cycle_env) (s : state) :
  is_dict (processed_events s) ->
  reload (state_file s) = Ok (processed_events s) ->
  saves_ok envs ->
  let s' := final (EventListener.start envs s) in
  is_dict (processed_events s') /\ reload (state_file s') = Ok (processed_events s').
Proof.
  cbv zeta. destruct (start_final envs s) as [-> _].
  revert s. induction envs as [|env rest IH]; intros s Hd Hrec Hok; [now split|].
  inversion Hok as [|? ? Henv Hrest]; subst.
  rewrite cycles_cons. cbv zeta. rewrite final_triple.
  destruct (poll_cycle_ledger env s) as (P1 & P2 & _).
  assert (Hb : batch_saves_ok (batch_of env s)).
  { unfold batch_of. destruct (latest env); [|constructor].
    destruct (_ >? _); [constructor|].
    destruct (fetch env); [exact Henv|constructor]. }
  destruct (for_events_recoverable (batch_of env s) s Hd Hrec Hb) as [D1 R1].
  rewrite <- P1, <- P2 in *. now apply IH.
Qed.

Lemma restart_recovers_ledger_witness :
  reload (state_file
            (final (EventListener.start [mkCycleEnv (Some 100) (Ok sample_batch)]
                      fresh_state)))
  = Ok (processed_events
          (final (EventListener.start [mkCycleEnv (Some 100) (Ok sample_batch)]
                    fresh_state))).
Proof.
  assert (Hok : saves_ok [mkCycleEnv (Some 100) (Ok sample_batch)]).
  { repeat constructor. }
  exact (proj2 (restart_recovers_ledger [mkCycleEnv (Some 100) (Ok sample_batch)]
                  fresh_state I eq_refl Hok)).
Defined.

(** * csv_validator.py *)

Section CsvValidatorFacts.

Import CsvValidator.

Lemma mem_In (x : string) (l : list string) : mem x l = true <-> In x l.
Proof.
  unfold mem. rewrite existsb_exists. split.
  - intros (y & Hin & Heq). apply String.eqb_eq in Heq. now subst.
  - intros Hin. exists x. split; [exact Hin|apply String.eqb_refl].
Qed.

Lemma insert_sorted_In (x y : string) (l : list string) :
  In y (insert_sorted x l) <-> y = x \/ In y l.
Proof.
  induction l as [|z l IH]; simpl; [intuition|].
  destruct (String.leb x z); simpl; rewrite ?IH; intuition.
Qed.

Lemma sorted_In (y : string) (l : list string) : In y (sorted l) <-> In y l.
Proof.
  induction l as [|x l IH]; simpl; [tauto|].
  rewrite insert_sorted_In, IH. intuition.
Qed.

Lemma insert_sorted_NoDup (x : string) (l : list string) :
  ~ In x l -> NoDup l -> NoDup (insert_sorted x l).
Proof.
  induction l as [|z l IH]; simpl; intros Hx Hnd.
  - constructor; [tauto|constructor].
  - destruct (String.leb x z).
    + constructor; [simpl; tauto|exact Hnd].
    + inversion Hnd as [|? ? Hz Hl]; subst. constructor.
      * rewrite insert_sorted_In. intuition.
      * apply IH; tauto.
Qed.

Lemma sorted_NoDup (l : list string) : NoDup l -> NoDup (sorted l).
Proof.
  induction l as [|x l IH]; simpl; intros Hnd; [constructor|].
  inversion Hnd; subst. apply insert_sorted_NoDup; [now rewrite sorted_In|auto].
Qed.

Lemma insert_sorted_Sorted (x : string) (l : list string) :
  Sorted (fun a b => String.leb a b = true) l ->
  Sorted (fun a b => String.leb a b = true) (insert_sorted x l).
Proof.
  induction l as [|z l IH]; simpl; intros Hs; [repeat constructor|].
  destruct (String.leb x z) eqn:E.
  - constructor; [exact Hs|constructor; exact E].
  - inversion Hs as [|? ? Hl Hhd]; subst. constructor; [now apply IH|].
    assert (Hzx : String.leb z x = true)
      by (destruct (String.leb_total x z) as [H|H]; [congruence|exact H]).
    destruct l as [|w l]; simpl; [constructor; exact Hzx|].
    destruct (String.leb x w); constructor; [exact Hzx|].
    now inversion Hhd.
Qed.

Lemma sorted_Sorted (l : list string) :
  Sorted (fun a b => String.leb a b = true) (sorted l).
Proof.
  induction l as [|x l IH]; simpl; [constructor|now apply insert_sorted_Sorted].
Qed.

Lemma missing_columns_In (expected header : list string) (x : string) :
  In x (missing_columns expected header) <-> In x expected /\ ~ In x header.
Proof.
  unfold missing_columns. rewrite sorted_In, nodup_In, filter_In.
  rewrite negb_true_iff, <- not_true_iff_false, mem_In. tauto.
Qed.

Variable blank : string -> bool.

(** X16: [validate_csv] answers [True] exactly when it reports no
    error; every [False] comes with at least one message. *)
Theorem verdict_iff_no_errors (filepath : string) (expected : list string)
        (column_types : list (string * pytype)) (src : csv_source) :
  fst (validate_csv blank filepath expected column_types src) = true <->
  snd (validate_csv blank filepath expected column_types src) = [].
Proof.
  unfold validate_csv.
  destruct src as [| text |[|header rows] [text|]]; simpl;
    try (split; discriminate);
    destruct (missing_columns expected header); try (split; discriminate);
    destruct (check_rows blank header column_types rows 2) as [e|[|m errors]];
    simpl; split; try discriminate; reflexivity.
Qed.

(** X17: an expected column that the header lacks ends the validation
    at the header.  The answer is [False] with the single message that
    lists the missing names, each expected name absent from the header
    once, in sorted order; the data rows are not looked at. *)
Theorem missing_column_stops_validation
        (filepath : string) (expected : list string)
        (column_types : list (string * pytype)) (header : list string)
        (rows : list (list string)) (breaks : option string) (c : string) :
  In c expected -> ~ In c header ->
  let missing := missing_columns expected header in
  validate_csv blank filepath expected column_types (Rows (header :: rows) breaks)
  = (false, [MissingColumns missing])
  /\ (forall x, In x missing <-> In x expected /\ ~ In x header)
  /\ NoDup missing
  /\ Sorted (fun a b => String.leb a b = true) missing.
Proof.
  intros Hc Hnot. cbv zeta.
  assert (Hin : In c (missing_columns expected header))
    by (apply missing_columns_In; now split).
  split; [|split; [|split]].
  - unfold validate_csv.
    destruct (missing_columns expected header); [destruct Hin|reflexivity].
  - intros x. apply missing_columns_In.
  - apply sorted_NoDup, NoDup_nodup.
  - apply sorted_Sorted.
Qed.

End CsvValidatorFacts.

Lemma missing_column_stops_validation_witness :
  CsvValidator.validate_csv CsvValidator.sample_blank "data.csv" ["name"; "age"; "id"]
    [("age", CsvValidator.sample_int)]
    (CsvValidator.Rows [["name"]; ["x"; "y"]] None)
  = (false, [CsvValidator.MissingColumns ["age"; "id"]]).
Proof.
  assert (Hc : In "age" ["name"; "age"; "id"]) by (simpl; tauto).
  assert (Hn : ~ In "age" ["name"]) by (simpl; intuition discriminate).
  exact (proj1 (missing_column_stops_validation CsvValidator.sample_blank "data.csv"
                  ["name"; "age"; "id"] [("age", CsvValidator.sample_int)] ["name"]
                  [["x"; "y"]] None "age" Hc Hn)).
Defined.

Section CsvValidatorRows.

Import CsvValidator.

Lemma header_map_get_spec (name : string) (header : list string) (k i : nat) :
  header_map_get name header k = Some i ->
  (k <= i)%nat
  /\ nth_error header (i - k) = Some name
  /\ forall j, (i - k < j)%nat -> nth_error header j <> Some name.
Proof.
  revert k i. induction header as [|h rest IH]; simpl; intros k i; [discriminate|].
  destruct (header_map_get name rest (S k)) as [j|] eqn:E.
  - intros [= <-]. destruct (IH _ _ E) as (Hle & Hnth & Hlast).
    split; [lia|]. replace (j - k)%nat with (S (j - S k)) by lia.
    split; [exact Hnth|].
    intros j' Hj'. destruct j' as [|j']; [lia|]. simpl. apply Hlast. lia.
  - destruct (String.eqb name h) eqn:Eh; [|discriminate].
    intros [= <-]. apply String.eqb_eq in Eh. subst h.
    split; [lia|]. rewrite Nat.sub_diag. split; [reflexivity|].
    intros j Hj. destruct j as [|j]; [lia|]. simpl.
    intros Hnth. apply nth_error_In in Hnth.
    assert (Hnone : forall l m, header_map_get name l m = None -> ~ In name l).
    { clear. induction l as [|x l IHl]; simpl; intros m Hm; [tauto|].
      destruct (header_map_get name l (S m)) eqn:E1; [discriminate|].
      destruct (String.eqb name x) eqn:E2; [discriminate|].
      apply String.eqb_neq in E2. intros [->|Hin]; [congruence|].
      exact (IHl _ E1 Hin). }
    exact (Hnone _ _ E Hnth).
Qed.

Lemma header_map_get_none (name : string) (header : list string) (k : nat) :
  header_map_get name header k = None <-> mem name header = false.
Proof.
  revert k. induction header as [|h rest IH]; simpl; intros k; [tauto|].
  destruct (String.eqb name h) eqn:Eh; simpl.
  - destruct (header_map_get name rest (S k)); split; discriminate.
  - rewrite <- (IH (S k)). destruct (header_map_get name rest (S k)); split;
      congruence.
Qed.

(** X18: with duplicate names in the header, the type of a column is
    checked against the last column of that name: the position looked
    up for a name is its last position in the header, and the lookup
    fails exactly for a name the header does not have. *)
Theorem header_lookup_is_last_position (name : string) (header : list string) :
  (forall i, header_map_get name header 0 = Some i ->
             nth_error header i = Some name
             /\ forall j, (i < j)%nat -> nth_error header j <> Some name)
  /\ (header_map_get name header 0 = None <-> ~ In name header).
Proof.
  split.
  - intros i Hi. destruct (header_map_get_spec _ _ _ _ Hi) as (_ & Hnth & Hlast).
    rewrite Nat.sub_0_r in *. now split.
  - rewrite header_map_get_none, <- mem_In. now destruct (mem name header).
Qed.

Variable blank : string -> bool.




End CsvValidatorRows.


Section CsvValidatorReports.

Import CsvValidator.

Variable blank : string -> bool.




End CsvValidatorReports.


Lemma event_signature_injective_witness :
  EventProcessor.event_signature batch_event0 <> EventProcessor.event_signature batch_event1.
Proof.
  intros Heq.
  destruct (proj1 (event_signature_injective batch_event0 batch_event1) Heq) as [_ Hi].
  discriminate Hi.
Defined.

Lemma main_enters_loop_iff_witness :
  entered_loop (main_trace (main decimal_int sample_main_env FileNotJSON)) = Some 100.
Proof.
  apply (proj2 (main_enters_loop_iff decimal_int sample_main_env FileNotJSON 100)).
  repeat split. discriminate.
Defined.

Lemma header_lookup_is_last_position_witness :
  nth_error ["id"; "age"; "name"; "age"] 3 = Some "age"
  /\ forall j, (3 < j)%nat -> nth_error ["id"; "age"; "name"; "age"] j <> Some "age".
Proof.
  exact (proj1 (header_lookup_is_last_position "age" ["id"; "age"; "name"; "age"])
               3%nat eq_refl).
Defined.
